(* ===== verification/_CoqProject ===== *)
-Q . S2P
Prelude.v
CTypes.v
Memory.v
Btf.v
CoreRead.v
Kernels.v
Accessors.v
Objects.v
Concurrency.v
Traversal.v
Interface.v
WalkRace.v
Loader.v
