(* ===== verification/Prelude.v ===== *)
(** * A verification library for pulsar's process-monitor struct accessors

    The program.  [src/crates/bpf-programs/process-monitor/vmlinux_access.c]
    (with its header [vmlinux_access.h]) is the layer of pulsar's eBPF
    process monitor that reads fields out of kernel structures
    ([task_struct], [mm_struct], [signal_struct], [linux_binprm], [file],
    [cgroup], [kernfs_node]).  Each of its nineteen functions has the same
    shape: if the handle is the null pointer, return a sentinel of the
    result type ([0] for pointers, [-1] for [int], [ULONG_MAX] for
    [unsigned long] and [u64]); otherwise return [BPF_CORE_READ(p, path)].
    [BPF_CORE_READ] is libbpf's CO-RE ("compile once, run everywhere")
    read: the field path is relocated against the BTF layout of the
    running kernel, and the bytes are copied with [bpf_probe_read_kernel],
    whose status the macro discards.  The kernel owns the memory and
    writes it concurrently; the functions keep no state.

    The development, file by file (each requires the ones before it):
    - [Prelude] (this file): the library loads, the scope
      [pulsar_scope], the hint databases [pulsar] and [pulsar_rw], the
      tactics [case_null] and [pulsar_simpl], and generic lemmas on
      modular integers, bytes, null tests and list disjointness.
    - [CTypes]: the C types of the fields read ([int], [unsigned long],
      [u64], pointers) as sizes, widths and ranges on [Z]; the header's
      [ULONG_MAX]; the little-endian encoding of values in bytes, with
      two's complement for [int]; round trips and ranges.
    - [Memory]: kernel memory as a partial map from 64-bit addresses to
      bytes ([gmap Z byte]); [footprint], [load_bytes], [store_bytes] (a
      kernel write), and [bpf_probe_read_kernel] (all bytes mapped: copy
      them and return 0; otherwise [-EFAULT] and a zero-filled
      destination, as [bpf_probe_read_kernel_common] does).
    - [Btf]: the running kernel's BTF (struct name to members with byte
      offsets and types), the resolution of a field path through embedded
      structs, and [field_reloc], libbpf's CO-RE field relocation by
      member name with its compatibility check.
    - [CoreRead]: the interface between the accessors and the reader,
      the class [FieldReader] with its laws [FieldReaderLaws] (spec
      section 4.1), and its implementation [core_read] on a kernel state
      [kstate] (BTF and memory), which discharges the laws.
    - [Kernels]: two concrete layouts of the seven structures, with the
      members at different offsets and in different orders, for examples.
    - [Accessors]: the nineteen functions of [vmlinux_access.c] (Section
      [Facade], against any [FieldReader]), the enumeration [accessor]
      of the header's prototypes, [run_accessor], the field and the
      return type of each function, and the facade theorems.
    - [Objects]: an abstract view of the kernel objects (a record per
      structure type, at its address), the spec's accessor [view_read] on
      a view, the relation [represents] between a kernel and a view, and
      the refinement theorems.
    - [Concurrency]: runs as explicit sequences of kernel writes and
      accessor calls, a step relation, and the theorems about reads made
      while the kernel writes.
    - [Traversal]: the caller the spec (sections 3 and 9) leaves the
      list walk to: a fuelled loop over a task's [children]/[sibling]
      ring built on [task_struct_children_next] and
      [task_struct_sibling_next], with [list_entry] as [sibling_entry]
      and member offsets from the running kernel's BTF.
    - [Interface]: the header [vmlinux_access.h] as its list of
      prototypes, the names and signatures of the definitions in
      [vmlinux_access.c], and linking a call by name.
    - [WalkRace]: the walk of [Traversal] one iteration per step
      ([walk_iter]), the kernel's [list_del_init] (what a task's exit
      does to its [sibling] entry), and the race between the two as a
      step relation [race_step] (a walker iteration, or any kernel write
      or [list_del_init], at each step).
    - [Loader]: libbpf's load-time CO-RE relocation ([relocate]), the
      verifier's rejection of a reachable poisoned instruction
      ([verify]), [load], and the loaded program's reader
      [patched_read], a second [FieldReader] instance (with its laws) on
      which the nineteen functions run unchanged.

    What is proved.  The claims (C1 to C12) are the properties of the
    nineteen functions and of the code built on them:
    - Facade (Accessors): a null handle gives the sentinel of the return
      type whatever the reader (C1); a readable field gives its stored
      value (C2); an unreadable field gives 0, not the sentinel (C3, a
      divergence from spec section 4.2 step 3).
    - Refinement (Objects): on a kernel representing a view, for a null
      handle or a handle to an object of the view that has the field,
      the caller's reading of each result is the spec's accessor (C4;
      outside that case C3 applies); the chained access task -> mm ->
      argv bounds gives the memory space's bounds (C5), and ULONG_MAX for
      a kernel thread, whose NULL mm reads as "unavailable" (C8).
    - Concurrency: reads interleaved with kernel writes that miss them
      log a consistent snapshot (C6); a write outside a function's field
      leaves its result unchanged (C7).
    - Traversal: with more iterations than children, the walk over a
      well-formed ring returns exactly the children (C9); an unreadable
      link in the middle ends the walk with a truncated list and no
      error (C10).
    - Race (WalkRace): [list_del_init] relinks the predecessor and makes
      the removed task's sibling link point to itself (C11), so a walker
      about to follow the link to a task that exits then never reaches
      the head (C12).
    The files also prove lemmas that the claims rest on or that check
    the model itself, none of them a claim: decode/encode round trips
    ([CTypes]); the facts of [represents] (a kernel built from any
    layout whose fields do not overlap represents its view,
    [build_kstate_represents]; layouts that hold the same objects agree,
    [layout_independence]); the invariant of reachable monitor
    configurations ([reachable_invariant]); the fuel bound and
    monotonicity of the walk ([task_children_fuel]); the stepwise
    walker's agreement with [walk_siblings] and its iteration bound
    under any interleaving ([run_walker_walk],
    [race_iterations_bounded]); the header/definition comparison that
    shows the misspelled prototype ([header_unresolved]); and the
    loader's rejection of a failed relocation and its agreement with
    [core_read] ([load_rejects], [loaded_equiv],
    [pre55_rejects_kernfs_node_id]).

    Bounds and fuel.  The nineteen functions do not loop: each is one
    guard and one read, so they need no fuel.  The only loop is the
    caller's walk in [Traversal], whose fuel is the BPF loop bound: a
    ring of [n] children needs [n + 1] iterations (the last one meets
    the head), which C9 proves enough; the walk never takes more than
    its fuel, whatever memory holds, also while the kernel runs between
    iterations; and C12 shows the bound is needed for termination, not
    only to satisfy the BPF verifier.  Addresses are 64-bit and wrap
    ([addr_add]); a footprint of at most 2^64 bytes has no repeated
    address, which every read (4 or 8 bytes) satisfies.

    Not modelled, and why.  The event triggers and program loading (out
    of scope, spec section 1); the user-space side; the BPF verifier;
    libbpf's anonymous-member search, [___flavor] names and bitfields
    (no accessor uses them); page-level rules of
    [copy_from_kernel_nofault] (abstracted as mapped/unmapped bytes);
    memory ordering across CPUs (each write and read is one step); of
    the kernel's list operations only [list_del_init] is modelled (the
    one a task's exit runs on its [sibling] entry), not [list_add_tail]
    at fork nor RCU grace periods.
    [core_read] lets a read whose field does not relocate fail at run
    time, as spec section 4.1 says; libbpf instead rejects such a
    program at load time, which [Loader] models, so the run-time branch
    only matters for programs that did not load.  Of program loading
    only the relocation and the poisoned-instruction check are
    modelled, not maps, program types or the verifier's other checks.

    The walk in [Traversal] and [WalkRace], linking in [Interface],
    [list_del_init] in [WalkRace] and loading in [Loader] are not code
    of the repository: they model what the spec asks of a caller, what
    the BPF object linker does with the header's names, what the kernel
    (include/linux/list.h) does to the lists the accessors expose, and
    what libbpf and the verifier do when the monitor is loaded. *)

From stdpp Require Export base gmap strings list.
From stdpp Require Export fin_maps.
From Stdlib Require Export ZArith Lia.
From Stdlib Require Export Strings.Byte.

Declare Scope pulsar_scope.
Delimit Scope pulsar_scope with pulsar.
Open Scope Z_scope.

Create HintDb pulsar discriminated.
#[export] Hint Constants Transparent : pulsar.
Create Rewrite HintDb pulsar_rw.

(** ** Modular integers *)

(** The value of [z] as a [w]-bit unsigned machine integer. *)
Definition wrap (w z : Z) : Z := z mod 2 ^ w.

Lemma wrap_range w z : 0 <= w -> 0 <= wrap w z < 2 ^ w.
Proof. intros Hw. unfold wrap. apply Z.mod_pos_bound. lia. Qed.

Lemma wrap_small w z : 0 <= z < 2 ^ w -> wrap w z = z.
Proof. intros H. unfold wrap. apply Z.mod_small. exact H. Qed.

Lemma wrap_idem w z : 0 <= w -> wrap w (wrap w z) = wrap w z.
Proof. intros Hw. apply wrap_small, wrap_range, Hw. Qed.

#[export] Hint Resolve wrap_range : pulsar.

(** ** Bytes *)

(** The unsigned value of a byte. *)
Definition byte_val (b : byte) : Z := Z.of_N (Byte.to_N b).

(** The byte holding the low 8 bits of [z]. *)
Definition byte_of_Z (z : Z) : byte :=
  match Byte.of_N (Z.to_N (z mod 256)) with Some b => b | None => Byte.x00 end.

Lemma byte_val_range b : 0 <= byte_val b < 256.
Proof. unfold byte_val. pose proof (Byte.to_N_bounded b). lia. Qed.

Lemma byte_val_of_Z z : byte_val (byte_of_Z z) = z mod 256.
Proof.
  unfold byte_of_Z, byte_val.
  pose proof (Z.mod_pos_bound z 256 ltac:(lia)) as Hr.
  pose proof (Byte.to_of_N_option_map (Z.to_N (z mod 256))) as Hm.
  destruct (Byte.of_N (Z.to_N (z mod 256))) as [b|] eqn:E; simpl in Hm.
  - apply Byte.to_of_N in E. rewrite E. lia.
  - destruct (N.leb_spec (Z.to_N (z mod 256)) 255); [discriminate | lia].
Qed.

Lemma byte_val_inj b1 b2 : byte_val b1 = byte_val b2 -> b1 = b2.
Proof.
  unfold byte_val. intros H. apply N2Z.inj in H.
  pose proof (Byte.of_to_N b1) as E1. pose proof (Byte.of_to_N b2) as E2.
  congruence.
Qed.

Lemma byte_of_Z_val b : byte_of_Z (byte_val b) = b.
Proof.
  apply byte_val_inj. rewrite byte_val_of_Z.
  apply Z.mod_small. apply byte_val_range.
Qed.

Lemma byte_val_x00 : byte_val Byte.x00 = 0.
Proof. reflexivity. Qed.

#[export] Hint Rewrite byte_val_of_Z byte_of_Z_val byte_val_x00 : pulsar_rw.
#[export] Hint Resolve byte_val_range : pulsar.

(** ** Null tests *)

(** The accessors test [p == 0]; [Z.eqb] is that test on addresses. *)
Lemma null_test_true (p : Z) : (p =? 0) = true <-> p = 0.
Proof. apply Z.eqb_eq. Qed.

Lemma null_test_false (p : Z) : p <> 0 -> (p =? 0) = false.
Proof. apply Z.eqb_neq. Qed.

#[export] Hint Rewrite Z.eqb_refl : pulsar_rw.

(** [case_null p] splits on the null test of [p] in the goal. *)
Ltac case_null p :=
  let Hn := fresh "Hnull" in
  destruct (Z.eqb_spec p 0) as [Hn | Hn]; [subst p | ].

(** Rewrite with the [pulsar] database and close what is left. *)
Ltac pulsar_simpl := autorewrite with pulsar_rw in *; simpl in *; try done; try lia.

(** ** Lists *)

(** Disjointness of two lists (of addresses) is decidable. *)
#[export] Instance list_disjoint_dec {A} `{EqDecision A} (l k : list A) : Decision (l ## k).
Proof.
  destruct (decide (Forall (fun x => x ∉ k) l)) as [H | H]; [left | right].
  - intros x Hl Hk. rewrite Forall_forall in H. exact (H x Hl Hk).
  - intros Hd. apply H, Forall_forall. intros x Hl Hk. exact (Hd x Hl Hk).
Defined.
