(* ===== verification/CTypes.v ===== *)
(** * C scalar types of the fields the accessors read

    The accessors of [vmlinux_access.c] return [int] ([pid], [tgid],
    [exit_code], [argc], [live.counter]), [unsigned long] ([arg_start],
    [arg_end]), [u64] ([kn->id]) and pointers.  On the BPF target [int]
    is 32 bits, [unsigned long], [u64] and pointers are 64 bits, and
    memory is little-endian.  This file gives each type its size and
    range on [Z], the header's [ULONG_MAX], and the little-endian
    encoding and decoding of a value in bytes, with their round trips. *)

From S2P Require Import Prelude.

(** ** The types *)

Inductive ctype := CInt | CULong | CU64 | CPtr.

#[export] Instance ctype_eq_dec : EqDecision ctype.
Proof. solve_decision. Defined.

(** [sizeof] on the BPF target (LP64). *)
Definition sizeof (t : ctype) : nat :=
  match t with CInt => 4%nat | CULong | CU64 | CPtr => 8%nat end.

Definition is_signed (t : ctype) : bool :=
  match t with CInt => true | _ => false end.

Definition width (t : ctype) : Z := 8 * Z.of_nat (sizeof t).

(** [#define ULONG_MAX 18446744073709551615U] (vmlinux_access.h). *)
Definition ULONG_MAX : Z := 18446744073709551615.

(** The values a [t] holds. *)
Definition in_range (t : ctype) (v : Z) : Prop :=
  if is_signed t then - 2 ^ (width t - 1) <= v < 2 ^ (width t - 1)
  else 0 <= v < 2 ^ width t.

Definition in_range_b (t : ctype) (v : Z) : bool :=
  if is_signed t then (- 2 ^ (width t - 1) <=? v) && (v <? 2 ^ (width t - 1))
  else (0 <=? v) && (v <? 2 ^ width t).

(** ** Little-endian bytes *)

Fixpoint le_combine (bs : list byte) : Z :=
  match bs with
  | [] => 0
  | b :: bs' => byte_val b + 256 * le_combine bs'
  end.

Fixpoint le_split (n : nat) (z : Z) : list byte :=
  match n with
  | O => []
  | S n' => byte_of_Z z :: le_split n' (z / 256)
  end.

(** Two's complement reading of a [w]-bit unsigned value. *)
Definition sign_extend (w u : Z) : Z :=
  if u <? 2 ^ (w - 1) then u else u - 2 ^ w.

(** The value of type [t] held by the bytes [bs] ([sizeof t] of them). *)
Definition decode (t : ctype) (bs : list byte) : Z :=
  if is_signed t then sign_extend (width t) (le_combine bs) else le_combine bs.

(** The bytes that hold the value [v] of type [t]. *)
Definition encode (t : ctype) (v : Z) : list byte := le_split (sizeof t) v.

(** ** Lemmas *)

Lemma in_range_b_spec t v : in_range_b t v = true <-> in_range t v.
Proof.
  unfold in_range_b, in_range. destruct (is_signed t);
    rewrite andb_true_iff, Z.leb_le, Z.ltb_lt; tauto.
Qed.

Lemma length_le_split n z : length (le_split n z) = n.
Proof. revert z. induction n; intros z; simpl; auto. Qed.

Lemma le_combine_split n z : le_combine (le_split n z) = z mod 2 ^ (8 * Z.of_nat n).
Proof.
  revert z. induction n as [|n IH]; intros z; simpl le_split; simpl le_combine.
  - rewrite Z.mod_1_r. reflexivity.
  - rewrite IH, byte_val_of_Z.
    replace (8 * Z.of_nat (S n)) with (8 + 8 * Z.of_nat n) by lia.
    rewrite Z.pow_add_r by lia. change (2 ^ 8) with 256.
    rewrite Z.rem_mul_r by (try apply Z.pow_pos_nonneg; lia). reflexivity.
Qed.

Lemma le_combine_bound bs : 0 <= le_combine bs < 2 ^ (8 * Z.of_nat (length bs)).
Proof.
  induction bs as [|b bs IH]; simpl le_combine; simpl length.
  - simpl. lia.
  - pose proof (byte_val_range b).
    replace (8 * Z.of_nat (S (length bs))) with (8 + 8 * Z.of_nat (length bs)) by lia.
    rewrite Z.pow_add_r by lia. change (2 ^ 8) with 256. lia.
Qed.

Lemma le_split_combine bs : le_split (length bs) (le_combine bs) = bs.
Proof.
  induction bs as [|b bs IH]; simpl; [reflexivity |].
  pose proof (byte_val_range b). pose proof (le_combine_bound bs).
  f_equal.
  - apply byte_val_inj. rewrite byte_val_of_Z.
    rewrite Z.mul_comm, Z.mod_add by lia. apply Z.mod_small. lia.
  - replace ((byte_val b + 256 * le_combine bs) / 256) with (le_combine bs); [exact IH |].
    rewrite Z.mul_comm, Z.div_add, Z.div_small by lia. lia.
Qed.

Lemma le_combine_repeat_x00 n : le_combine (repeat Byte.x00 n) = 0.
Proof. induction n as [|n IH]; simpl; [reflexivity | rewrite IH; reflexivity]. Qed.

#[export] Hint Rewrite length_le_split le_combine_split le_split_combine
  le_combine_repeat_x00 : pulsar_rw.

(** Widths of the four types, for the proofs that case on the type. *)
Lemma width_cases t :
  (t = CInt /\ width t = 32) \/ (t <> CInt /\ width t = 64 /\ is_signed t = false).
Proof. destruct t; [left | right..]; repeat split; try discriminate; reflexivity. Qed.

Lemma sign_extend_mod w v :
  0 < w -> - 2 ^ (w - 1) <= v < 2 ^ (w - 1) -> sign_extend w (v mod 2 ^ w) = v.
Proof.
  intros Hw Hv. unfold sign_extend.
  assert (Hp : 2 ^ w = 2 * 2 ^ (w - 1)).
  { rewrite <- Z.pow_succ_r by lia. f_equal. lia. }
  rewrite Hp. destruct (Z.leb_spec 0 v).
  - rewrite Z.mod_small by lia. rewrite (proj2 (Z.ltb_lt _ _)) by lia. reflexivity.
  - rewrite <- (Z.mod_unique v (2 * 2 ^ (w - 1)) (-1) (v + 2 * 2 ^ (w - 1))) by lia.
    rewrite (proj2 (Z.ltb_ge _ _)) by lia. lia.
Qed.

Lemma sign_extend_range w u :
  0 < w -> 0 <= u < 2 ^ w -> - 2 ^ (w - 1) <= sign_extend w u < 2 ^ (w - 1).
Proof.
  intros Hw Hu. unfold sign_extend.
  assert (Hp : 2 ^ w = 2 * 2 ^ (w - 1)).
  { rewrite <- Z.pow_succ_r by lia. f_equal. lia. }
  destruct (Z.ltb_spec u (2 ^ (w - 1))); lia.
Qed.

Lemma sign_extend_wrap w v :
  0 < w -> 0 <= v < 2 ^ w -> sign_extend w v mod 2 ^ w = v.
Proof.
  intros Hw Hv. unfold sign_extend.
  destruct (Z.ltb_spec v (2 ^ (w - 1))).
  - apply Z.mod_small. exact Hv.
  - replace (v - 2 ^ w) with (v + (-1) * 2 ^ w) by lia. rewrite Z.mod_add by lia.
    apply Z.mod_small. exact Hv.
Qed.

(** Evaluate the sizes, widths and powers of two of concrete types. *)
Ltac ctype_compute :=
  cbv [is_signed width sizeof Z.of_nat Pos.of_succ_nat Pos.succ Z.mul Z.pow
       Z.pow_pos Pos.iter Pos.mul Pos.add Z.sub Z.add Z.opp Z.pos_sub
       Pos.pred_double] in *.

Lemma width_pos t : 0 < width t.
Proof. destruct t; reflexivity. Qed.

Lemma width_sizeof t : 8 * Z.of_nat (sizeof t) = width t.
Proof. reflexivity. Qed.

(** Decoding the encoding of a value of [t] gives the value back. *)
Theorem decode_encode t v : in_range t v -> decode t (encode t v) = v.
Proof.
  unfold in_range, decode, encode. intros Hv.
  rewrite le_combine_split, width_sizeof.
  destruct (is_signed t).
  - apply sign_extend_mod; [apply width_pos | exact Hv].
  - apply Z.mod_small. exact Hv.
Qed.

Lemma le_combine_inj bs1 bs2 :
  length bs1 = length bs2 -> le_combine bs1 = le_combine bs2 -> bs1 = bs2.
Proof.
  intros Hl Hc. rewrite <- (le_split_combine bs1), <- (le_split_combine bs2).
  rewrite Hl, Hc. reflexivity.
Qed.

Lemma le_split_mod n z : le_split n z = le_split n (z mod 2 ^ (8 * Z.of_nat n)).
Proof.
  apply le_combine_inj; rewrite ?length_le_split; [reflexivity |].
  rewrite !le_combine_split, Z.mod_mod; [reflexivity |].
  apply Z.pow_nonzero; lia.
Qed.

(** Encoding the decoded value of [sizeof t] bytes gives the
    bytes back. *)
Theorem encode_decode t bs : length bs = sizeof t -> encode t (decode t bs) = bs.
Proof.
  intros Hl. unfold encode, decode. pose proof (le_combine_bound bs) as Hb.
  rewrite Hl, width_sizeof in Hb.
  destruct (is_signed t); [| rewrite <- Hl; apply le_split_combine].
  rewrite le_split_mod, width_sizeof, sign_extend_wrap by (auto using width_pos).
  rewrite <- Hl. apply le_split_combine.
Qed.

(** A value decoded from [sizeof t] bytes is in the range of [t]. *)
Theorem decode_range t bs : length bs = sizeof t -> in_range t (decode t bs).
Proof.
  intros Hl. unfold in_range, decode. pose proof (le_combine_bound bs) as Hb.
  rewrite Hl, width_sizeof in Hb.
  destruct (is_signed t); [apply sign_extend_range; auto using width_pos | exact Hb].
Qed.

(** Zero-filled bytes decode to 0 at every type. *)
Lemma decode_zeros t : decode t (repeat Byte.x00 (sizeof t)) = 0.
Proof. unfold decode. destruct t; pulsar_simpl. Qed.

#[export] Hint Rewrite decode_encode decode_zeros using assumption : pulsar_rw.

(** [ULONG_MAX] is [2^64 - 1]: a value of [unsigned long] and of
    [u64], and the largest one. *)
Lemma ULONG_MAX_max t :
  t = CULong \/ t = CU64 ->
  ULONG_MAX = 2 ^ width t - 1 /\ in_range t ULONG_MAX /\ (forall v, in_range t v -> v <= ULONG_MAX).
Proof.
  intros [-> | ->]; unfold in_range, ULONG_MAX; ctype_compute;
    (split; [reflexivity | split; [lia | intros v Hv; lia]]).
Qed.

(** ** Examples *)

Example decode_int_minus_1 : decode CInt [Byte.xff; Byte.xff; Byte.xff; Byte.xff] = -1.
Proof. reflexivity. Qed.

Example encode_pid_1234 : encode CInt 1234 = [Byte.xd2; Byte.x04; Byte.x00; Byte.x00].
Proof. reflexivity. Qed.

