(* ===== verification/Memory.v ===== *)
(** * Kernel memory and [bpf_probe_read_kernel]

    The kernel's memory, as the monitor sees it, is a partial map from
    64-bit addresses to bytes: an address with no entry cannot be read
    (unmapped, or refused by [copy_from_kernel_nofault]).  [load_bytes]
    reads [n] consecutive bytes (addresses wrap at 2^64, as BPF pointer
    arithmetic does); [store_bytes] is a write by the kernel, the owner
    of the memory.  [bpf_probe_read_kernel] is the helper behind
    [BPF_CORE_READ]: on success it returns 0 and the bytes; on failure
    it returns [-EFAULT] and zero-fills the destination
    ([bpf_probe_read_kernel_common] in kernel/trace/bpf_trace.c). *)

From S2P Require Import Prelude CTypes.

Abbreviation kmem := (gmap Z byte).

(** The address [n] bytes past [a]: BPF pointer arithmetic is 64-bit. *)
Definition addr_add (a n : Z) : Z := wrap 64 (a + n).

Notation "a +ₐ n" := (addr_add a n) (at level 50, left associativity) : pulsar_scope.
Open Scope pulsar_scope.

(** The addresses of the [n] bytes starting at [a]. *)
Fixpoint footprint (a : Z) (n : nat) : list Z :=
  match n with
  | O => []
  | S n' => wrap 64 a :: footprint (a + 1) n'
  end.

Definition load_bytes (m : kmem) (a : Z) (n : nat) : option (list byte) :=
  mapM (fun k => m !! k) (footprint a n).

(** A write of the bytes [bs] at [a] by the kernel. *)
Fixpoint store_bytes (m : kmem) (a : Z) (bs : list byte) : kmem :=
  match bs with
  | [] => m
  | b :: bs' => <[wrap 64 a := b]> (store_bytes m (a + 1) bs')
  end.

Definition EFAULT : Z := 14.

(** [bpf_probe_read_kernel(dst, size, unsafe_ptr)]: the status and the
    contents of [dst] after the call. *)
Definition bpf_probe_read_kernel (m : kmem) (size : nat) (unsafe_ptr : Z) : Z * list byte :=
  match load_bytes m unsafe_ptr size with
  | Some bs => (0, bs)
  | None => (- EFAULT, repeat Byte.x00 size)
  end.

(** A sequence of kernel writes, in order. *)
Definition store_all (m : kmem) (ws : list (Z * list byte)) : kmem :=
  fold_left (fun m '(a, bs) => store_bytes m a bs) ws m.

(** No two writes of [ws] touch a common byte. *)
Fixpoint writes_disjoint (ws : list (Z * list byte)) : bool :=
  match ws with
  | [] => true
  | (a, bs) :: ws' =>
      forallb (fun '(a', bs') => bool_decide (footprint a (length bs) ## footprint a' (length bs'))) ws'
      && writes_disjoint ws'
  end.

(** ** Footprints *)

Lemma length_footprint a n : length (footprint a n) = n.
Proof. revert a. induction n; intros a; simpl; auto. Qed.

Lemma elem_of_footprint k a n :
  k ∈ footprint a n <-> exists i, (i < n)%nat /\ k = a +ₐ Z.of_nat i.
Proof.
  unfold addr_add. revert a. induction n as [|n IH]; intros a; simpl.
  - rewrite elem_of_nil. split; [done | intros (i & Hi & _); lia].
  - rewrite elem_of_cons, IH. split.
    + intros [-> | (i & Hi & ->)]; [exists O; split; [lia | f_equal; lia] |].
      exists (S i). split; [lia | f_equal; lia].
    + intros ([|i] & Hi & ->); [left; f_equal; lia |].
      right. exists i. split; [lia | f_equal; lia].
Qed.

Lemma wrap64_inj_small a i j :
  0 <= i < 2 ^ 64 -> 0 <= j < 2 ^ 64 -> wrap 64 (a + i) = wrap 64 (a + j) -> i = j.
Proof.
  unfold wrap. intros Hi Hj Heq.
  apply Z.cong_iff_0 in Heq.
  replace (a + i - (a + j)) with (i - j) in Heq by lia.
  apply Z.mod_divide in Heq; [| lia]. destruct Heq as [q Hq].
  assert (q = 0) by nia. lia.
Qed.

Lemma footprint_head_notin a n : (Z.of_nat n < 2 ^ 64) -> wrap 64 a ∉ footprint (a + 1) n.
Proof.
  intros Hn Hin. apply elem_of_footprint in Hin as (i & Hi & Heq).
  unfold addr_add in Heq. rewrite <- (Z.add_0_r a) in Heq at 1.
  replace (a + 1 + Z.of_nat i) with (a + (1 + Z.of_nat i)) in Heq by lia.
  apply wrap64_inj_small in Heq; lia.
Qed.

Lemma NoDup_footprint a n : (Z.of_nat n <= 2 ^ 64) -> NoDup (footprint a n).
Proof.
  revert a. induction n as [|n IH]; intros a Hn; simpl; constructor.
  - apply footprint_head_notin. lia.
  - apply IH. lia.
Qed.

Lemma addr_add_assoc a o1 o2 : (a +ₐ o1) +ₐ o2 = a +ₐ (o1 + o2).
Proof. unfold addr_add, wrap. rewrite Z.add_mod_idemp_l by lia. f_equal. lia. Qed.

(** ** Loads *)

Lemma length_load_bytes m a n bs : load_bytes m a n = Some bs -> length bs = n.
Proof.
  unfold load_bytes. intros H. apply mapM_Some, Forall2_length in H.
  rewrite <- H. apply length_footprint.
Qed.

(** Loads only look at the footprint. *)
Lemma load_bytes_ext m1 m2 a n :
  (forall k, k ∈ footprint a n -> m1 !! k = m2 !! k) ->
  load_bytes m1 a n = load_bytes m2 a n.
Proof.
  unfold load_bytes. revert a. induction n as [|n IH]; intros a Hk; simpl; [done |].
  rewrite Hk by (left). rewrite IH; [done |].
  intros k Hin. apply Hk. right. exact Hin.
Qed.

Lemma load_bytes_None m a n :
  load_bytes m a n = None <-> exists k, k ∈ footprint a n /\ m !! k = None.
Proof. unfold load_bytes. rewrite mapM_None, Exists_exists. reflexivity. Qed.

Lemma load_bytes_lookup m a n bs i :
  load_bytes m a n = Some bs -> (i < n)%nat -> m !! (a +ₐ Z.of_nat i) = bs !! i.
Proof.
  unfold load_bytes, addr_add. intros H. apply mapM_Some in H.
  revert a bs i H. induction n as [|n IH]; intros a bs i H Hi; [lia |].
  simpl in H. inversion H as [|k b fp bs' Hk Hrest]; subst.
  destruct i as [|i]; simpl; [rewrite Z.add_0_r; exact Hk |].
  rewrite <- (IH (a + 1) bs' i Hrest) by lia. f_equal. f_equal. lia.
Qed.

(** ** Stores *)

Lemma store_bytes_lookup_notin m a bs k :
  k ∉ footprint a (length bs) -> store_bytes m a bs !! k = m !! k.
Proof.
  revert a. induction bs as [|b bs IH]; intros a Hk; simpl; [done |].
  simpl in Hk. apply not_elem_of_cons in Hk as [Hne Hk].
  rewrite lookup_insert_ne by congruence. apply IH, Hk.
Qed.

Lemma load_bytes_insert_notin m a n k v :
  k ∉ footprint a n -> load_bytes (<[k := v]> m) a n = load_bytes m a n.
Proof.
  intros Hk. apply load_bytes_ext. intros k' Hk'.
  rewrite lookup_insert_ne; [done |]. intros ->. contradiction.
Qed.

(** A load of what the kernel has just stored gives the stored bytes. *)
Lemma load_store_bytes m a bs :
  Z.of_nat (length bs) <= 2 ^ 64 -> load_bytes (store_bytes m a bs) a (length bs) = Some bs.
Proof.
  revert a. induction bs as [|b bs IH]; intros a Hl; [done |].
  simpl in Hl |- *. unfold load_bytes. simpl.
  rewrite lookup_insert_eq. simpl.
  fold (load_bytes (<[wrap 64 a:=b]> (store_bytes m (a + 1) bs)) (a + 1) (length bs)).
  rewrite load_bytes_insert_notin by (apply footprint_head_notin; lia).
  rewrite IH by lia. reflexivity.
Qed.

(** A kernel write outside the footprint of a load does not change it. *)
Lemma load_bytes_store_disjoint m a n a' bs :
  (forall k, k ∈ footprint a n -> k ∉ footprint a' (length bs)) ->
  load_bytes (store_bytes m a' bs) a n = load_bytes m a n.
Proof.
  intros Hd. apply load_bytes_ext. intros k Hk.
  apply store_bytes_lookup_notin, Hd, Hk.
Qed.

(** ** [bpf_probe_read_kernel] *)

Lemma bpf_probe_read_kernel_ok m size p bs :
  load_bytes m p size = Some bs -> bpf_probe_read_kernel m size p = (0, bs).
Proof. unfold bpf_probe_read_kernel. intros ->. reflexivity. Qed.

Lemma bpf_probe_read_kernel_fault m size p :
  load_bytes m p size = None -> bpf_probe_read_kernel m size p = (- EFAULT, repeat Byte.x00 size).
Proof. unfold bpf_probe_read_kernel. intros ->. reflexivity. Qed.

(** The destination always holds [size] bytes. *)
Lemma bpf_probe_read_kernel_length m size p : length (bpf_probe_read_kernel m size p).2 = size.
Proof.
  unfold bpf_probe_read_kernel. destruct (load_bytes m p size) eqn:E; simpl.
  - eapply length_load_bytes, E.
  - apply repeat_length.
Qed.

(** ** Sequences of writes *)

Lemma store_all_lookup_notin m ws k :
  (forall a bs, (a, bs) ∈ ws -> k ∉ footprint a (length bs)) -> store_all m ws !! k = m !! k.
Proof.
  revert m. induction ws as [|[a bs] ws IH]; intros m Hk; [reflexivity |]. simpl.
  rewrite IH.
  - apply store_bytes_lookup_notin, Hk. left.
  - intros a' bs' Hin. apply Hk. right. exact Hin.
Qed.

(** After disjoint writes, each write's bytes are read back. *)
Lemma load_store_all m ws a bs :
  writes_disjoint ws = true -> (a, bs) ∈ ws -> Z.of_nat (length bs) <= 2 ^ 64 ->
  load_bytes (store_all m ws) a (length bs) = Some bs.
Proof.
  revert m. induction ws as [|[a0 bs0] ws IH]; intros m Hd Hin Hl;
    [apply elem_of_nil in Hin; contradiction |].
  simpl in Hd |- *. apply andb_true_iff in Hd as [Hhead Hd].
  apply elem_of_cons in Hin as [[= <- <-] | Hin]; [| apply IH; assumption].
  rewrite (load_bytes_ext _ (store_bytes m a bs)); [apply load_store_bytes, Hl |].
  intros k Hk. apply store_all_lookup_notin. intros a' bs' Hin' Hk'.
  apply forallb_forall with (x := (a', bs')) in Hhead; [| apply list_elem_of_In, Hin'].
  apply bool_decide_eq_true in Hhead. exact (Hhead k Hk Hk').
Qed.

(** Two adjacent ranges of at most 2^64 bytes in all do not overlap. *)
Lemma footprint_disjoint_adjacent a n m :
  Z.of_nat n + Z.of_nat m <= 2 ^ 64 -> footprint a n ## footprint (a +ₐ Z.of_nat n) m.
Proof.
  intros Hnm k (i & Hi & ->)%elem_of_footprint (j & Hj & Heq)%elem_of_footprint.
  rewrite addr_add_assoc in Heq. unfold addr_add in Heq.
  apply wrap64_inj_small in Heq; lia.
Qed.

Lemma addr_add_0 a : 0 <= a < 2 ^ 64 -> a +ₐ 0 = a.
Proof. intros Ha. unfold addr_add. rewrite Z.add_0_r. apply wrap_small, Ha. Qed.

Lemma addr_add_range a n : 0 <= a +ₐ n < 2 ^ 64.
Proof. apply wrap_range. lia. Qed.

(** A range that starts [i] bytes into another and ends within it. *)
Lemma footprint_sub a i m n :
  (i + m <= n)%nat -> footprint (a +ₐ Z.of_nat i) m ⊆ footprint a n.
Proof.
  intros Hle k (j & Hj & ->)%elem_of_footprint. apply elem_of_footprint.
  exists (i + j)%nat. split; [lia |]. rewrite addr_add_assoc. f_equal. lia.
Qed.
