(* ===== verification/Btf.v ===== *)
(** * Kernel BTF and CO-RE field relocation

    The running kernel describes its structures in BTF: for each struct,
    its members with their byte offsets and types.  The accessors name a
    field by a path written against the build-time [vmlinux.h]
    ([kn], [f_path.mnt], [live.counter], [children.next], ...); libbpf
    relocates such an access against the running kernel's BTF by member
    name, walking through embedded structs ([f_path] is a [struct path]
    inside [struct file]) and adding up their offsets, and accepts the
    target field only if its kind is compatible with the local one
    (integers of any size with integers, pointers with pointers).
    [field_reloc] is that computation; it is [None] when a member is
    missing or incompatible on the running kernel. *)

From S2P Require Import Prelude CTypes.

(** ** BTF *)

Inductive btf_type :=
  | BInt (size : nat) (signed : bool)
  | BPtr
  | BStruct (name : string).

#[export] Instance btf_type_eq_dec : EqDecision btf_type.
Proof. solve_decision. Defined.

(** A member of a struct; [m_offset] is in bytes (BTF's bit offset / 8). *)
Record btf_member := mk_member { m_name : string; m_offset : Z; m_type : btf_type }.

#[export] Instance btf_member_eq_dec : EqDecision btf_member.
Proof. solve_decision. Defined.

(** Struct name to its members, in declaration order. *)
Abbreviation btf := (gmap string (list btf_member)).

Fixpoint find_member (ms : list btf_member) (f : string) : option btf_member :=
  match ms with
  | [] => None
  | m :: ms' => if String.eqb (m_name m) f then Some m else find_member ms' f
  end.

(** The offset and type of the field at [path] inside a value of type [t]. *)
Fixpoint resolve (B : btf) (t : btf_type) (path : list string) : option (Z * btf_type) :=
  match path with
  | [] => Some (0, t)
  | f :: path' =>
      match t with
      | BStruct s =>
          ms ← B !! s;
          m ← find_member ms f;
          '(o, t') ← resolve B (m_type m) path';
          Some (m_offset m + o, t')
      | _ => None
      end
  end.

(** ** CO-RE field accesses *)

(** A field access as the source writes it: [BPF_CORE_READ(p, a.b)] with
    [p] a pointer to [struct fa_struct], [fa_path = ["a"; "b"]], and the
    field's type in [vmlinux.h]. *)
Record field_access := field { fa_struct : string; fa_path : list string; fa_type : ctype }.

(** libbpf's [bpf_core_fields_are_compat], on the kinds modelled here. *)
Definition compatible (t : btf_type) (ct : ctype) : bool :=
  match t, ct with
  | BInt _ _, (CInt | CULong | CU64) => true
  | BPtr, CPtr => true
  | _, _ => false
  end.

(** The byte offset of the accessed field on the kernel described by [B]. *)
Definition field_reloc (B : btf) (fa : field_access) : option Z :=
  '(off, t) ← resolve B (BStruct (fa_struct fa)) (fa_path fa);
  if compatible t (fa_type fa) then Some off else None.

(** ** Well-formed BTF *)

(** Member names are unique within a struct and offsets are not negative. *)
Definition struct_wf (ms : list btf_member) : Prop :=
  NoDup (map m_name ms) /\ Forall (fun m => 0 <= m_offset m) ms.

Definition btf_wf (B : btf) : Prop := map_Forall (fun _ ms => struct_wf ms) B.

(** Two BTFs that declare the same structs with the same members, each
    struct's members possibly in another order. *)
Definition btf_perm (B1 B2 : btf) : Prop :=
  forall s, match B1 !! s, B2 !! s with
            | Some ms1, Some ms2 => ms1 ≡ₚ ms2 /\ NoDup (map m_name ms1)
            | None, None => True
            | _, _ => False
            end.

Definition btf_perm_b (B1 B2 : btf) : bool :=
  bool_decide (dom B1 = dom B2) &&
  forallb (fun '(s, ms1) =>
    match B2 !! s with
    | Some ms2 => bool_decide (ms1 ≡ₚ ms2) && bool_decide (NoDup (map m_name ms1))
    | None => false
    end) (map_to_list B1).

(** ** Lemmas *)

Lemma find_member_Some ms f m :
  find_member ms f = Some m -> m ∈ ms /\ m_name m = f.
Proof.
  induction ms as [|m' ms IH]; simpl; [done |].
  destruct (String.eqb_spec (m_name m') f) as [Heq | Hne].
  - intros [= <-]. split; [left | exact Heq].
  - intros H. destruct (IH H) as [Hin Hn]. split; [right; exact Hin | exact Hn].
Qed.

(** In a struct with unique member names, the member found is the one
    with that name, wherever it is declared. *)
Lemma find_member_unique ms f m :
  NoDup (map m_name ms) -> m ∈ ms -> m_name m = f -> find_member ms f = Some m.
Proof.
  induction ms as [|m' ms IH]; simpl; intros Hnd Hin Hn; [apply elem_of_nil in Hin; done |].
  apply NoDup_cons in Hnd as [Hnotin Hnd].
  destruct (String.eqb_spec (m_name m') f) as [Heq | Hne].
  - apply elem_of_cons in Hin as [-> | Hin]; [reflexivity |].
    exfalso. apply Hnotin. subst f. rewrite Heq.
    apply list_elem_of_In, in_map, list_elem_of_In, Hin.
  - apply elem_of_cons in Hin as [-> | Hin]; [congruence |]. apply IH; assumption.
Qed.

(** Resolving a path [p ++ q] resolves [p], then [q] inside the field
    found, and adds the offsets: a chained access through embedded
    structs is one relocation. *)
Lemma resolve_app B t p q :
  resolve B t (p ++ q) =
    '(o1, t1) ← resolve B t p;
    '(o2, t2) ← resolve B t1 q;
    Some (o1 + o2, t2).
Proof.
  revert t. induction p as [|f p IH]; intros t; simpl.
  - destruct (resolve B t q) as [[o t2]|]; reflexivity.
  - destruct t as [| |s]; [reflexivity | reflexivity |].
    destruct (B !! s) as [ms|]; simpl; [| reflexivity].
    destruct (find_member ms f) as [m|]; simpl; [| reflexivity].
    rewrite IH. destruct (resolve B (m_type m) p) as [[o1 t1]|]; simpl; [| reflexivity].
    destruct (resolve B t1 q) as [[o2 t2]|]; simpl; [| reflexivity].
    f_equal. f_equal. lia.
Qed.

(** Reordering the members of a struct (as a newer kernel, or a kernel
    built with struct randomization, does) does not change the member a
    name finds. *)
Lemma find_member_perm ms1 ms2 f :
  ms1 ≡ₚ ms2 -> NoDup (map m_name ms1) -> find_member ms1 f = find_member ms2 f.
Proof.
  intros Hp Hnd.
  assert (Hnd2 : NoDup (map m_name ms2)).
  { eapply NoDup_Permutation_proper; [| exact Hnd]. symmetry. apply Permutation_map, Hp. }
  destruct (find_member ms1 f) as [m|] eqn:E1.
  - apply find_member_Some in E1 as [Hin Hn]. symmetry.
    apply find_member_unique; [exact Hnd2 | rewrite <- Hp; exact Hin | exact Hn].
  - destruct (find_member ms2 f) as [m|] eqn:E2; [| reflexivity].
    apply find_member_Some in E2 as [Hin Hn].
    rewrite (find_member_unique ms1 f m) in E1; [discriminate | exact Hnd | rewrite Hp; exact Hin | exact Hn].
Qed.

(** The relocation of a one-member access is that member's offset on the
    running kernel, when it exists with a compatible type. *)
Lemma field_reloc_member B s f ct ms m :
  B !! s = Some ms -> find_member ms f = Some m -> compatible (m_type m) ct = true ->
  field_reloc B (field s [f] ct) = Some (m_offset m).
Proof.
  intros Hs Hm Hc. unfold field_reloc. simpl. rewrite Hs. simpl. rewrite Hm. simpl.
  rewrite Hc. f_equal. lia.
Qed.

(** Resolution, hence relocation, is the same on two BTFs that differ
    only in the order of members. *)
Lemma resolve_perm B1 B2 t p : btf_perm B1 B2 -> resolve B1 t p = resolve B2 t p.
Proof.
  intros HB. revert t. induction p as [|f p IH]; intros t; [reflexivity |].
  destruct t as [| |s]; [reflexivity | reflexivity |]. simpl.
  specialize (HB s). destruct (B1 !! s) as [ms1|], (B2 !! s) as [ms2|]; try contradiction; [| reflexivity].
  destruct HB as [Hp Hnd]. simpl. rewrite (find_member_perm ms1 ms2 f Hp Hnd).
  destruct (find_member ms2 f) as [m|]; simpl; [rewrite IH; reflexivity | reflexivity].
Qed.

Lemma field_reloc_perm B1 B2 fa : btf_perm B1 B2 -> field_reloc B1 fa = field_reloc B2 fa.
Proof. intros HB. unfold field_reloc. rewrite (resolve_perm B1 B2 _ _ HB). reflexivity. Qed.


Lemma btf_perm_b_sound B1 B2 : btf_perm_b B1 B2 = true -> btf_perm B1 B2.
Proof.
  unfold btf_perm_b. intros [Hdom%bool_decide_eq_true Hall]%andb_true_iff s.
  destruct (B1 !! s) as [ms1|] eqn:E1.
  - apply forallb_forall with (x := (s, ms1)) in Hall; [| apply list_elem_of_In, elem_of_map_to_list, E1].
    destruct (B2 !! s) as [ms2|]; [| discriminate].
    apply andb_true_iff in Hall as [Hp Hn]. apply bool_decide_eq_true in Hp, Hn. split; assumption.
  - assert (Hn : s ∉ dom B2) by (rewrite <- Hdom; apply not_elem_of_dom; exact E1).
    apply not_elem_of_dom in Hn. rewrite Hn. exact I.
Qed.

(** The relocation of a two-member path [f.g] through an embedded struct
    is the offset of [f] plus the relocation of [g] inside it. *)
Lemma field_reloc_embedded B s f g t o s' :
  resolve B (BStruct s) [f] = Some (o, BStruct s') ->
  field_reloc B (field s [f; g] t) = (fun x => o + x) <$> field_reloc B (field s' [g] t).
Proof.
  intros H. unfold field_reloc. cbn [fa_struct fa_path fa_type].
  pose proof (resolve_app B (BStruct s) [f] [g]) as E. cbn [app] in E.
  rewrite E, H. cbn [mbind option_bind].
  destruct (resolve B (BStruct s') [g]) as [[o2 t2]|]; cbn [mbind option_bind]; [| reflexivity].
  destruct (compatible t2 t); reflexivity.
Qed.
