(* ===== verification/CoreRead.v ===== *)
(** * The relocatable field reader: interface and CO-RE implementation

    Spec section 4.1 names one primitive under every accessor: read a
    field of a foreign structure, resolved against the running kernel's
    layout.  In the source this is libbpf's [BPF_CORE_READ(src, path)]:

      ___type(src, path) __r;
      bpf_probe_read_kernel(&__r, sizeof(__r),
                            __builtin_preserve_access_index(&src->path));
      __r

    i.e. one probe read of [sizeof] of the build-time field type at the
    relocated address, with the helper's status discarded and [__r]
    returned.  The class [FieldReader] is the interface the accessors are
    written against; [FieldReaderLaws] is what the reader promises: the
    value it returns is the value stored at the field when the field can
    be read ([field_value]), and 0 (the zero-filled [__r]) when it cannot.
    [core_read] on a kernel state (BTF and memory) is the implementation,
    and [core_reader_laws] discharges the laws. *)

From S2P Require Import Prelude CTypes Memory Btf.

(** ** The interface *)

Class FieldReader (St : Type) := BPF_CORE_READ : St -> Z -> field_access -> Z.

Class FieldReaderLaws (St : Type) `{!FieldReader St} := {
  (** The value held by the field [fa] of the structure at [src], when
      the running kernel has that field and its bytes can be read. *)
  field_value : St -> Z -> field_access -> option Z;
  read_hit st src fa v :
    field_value st src fa = Some v -> BPF_CORE_READ st src fa = v;
  read_miss st src fa :
    field_value st src fa = None -> BPF_CORE_READ st src fa = 0;
  field_value_range st src fa v :
    field_value st src fa = Some v -> in_range (fa_type fa) v
}.

(** ** The CO-RE implementation *)

(** The kernel the monitor runs on: its BTF (read once, when the program
    is loaded) and its memory. *)
Record kstate := mk_kstate { ks_btf : btf; ks_mem : kmem }.

(** [BPF_CORE_READ(src, path)] on the kernel [st]. *)
Definition core_read (st : kstate) (src : Z) (fa : field_access) : Z :=
  match field_reloc (ks_btf st) fa with
  | Some off =>
      decode (fa_type fa)
        (bpf_probe_read_kernel (ks_mem st) (sizeof (fa_type fa)) (src +ₐ off)).2
  | None => 0
  end.

#[export] Instance core_reader : FieldReader kstate := core_read.

(** The value stored at the relocated field, if all its bytes are mapped. *)
Definition core_field_value (st : kstate) (src : Z) (fa : field_access) : option Z :=
  off ← field_reloc (ks_btf st) fa;
  bs ← load_bytes (ks_mem st) (src +ₐ off) (sizeof (fa_type fa));
  Some (decode (fa_type fa) bs).

(** The kernel writes [v] into the field [fa] of the structure at [src]. *)
Definition store_field (st : kstate) (src : Z) (fa : field_access) (v : Z) : kstate :=
  match field_reloc (ks_btf st) fa with
  | Some off => mk_kstate (ks_btf st) (store_bytes (ks_mem st) (src +ₐ off) (encode (fa_type fa) v))
  | None => st
  end.

Lemma core_field_value_Some st src fa v :
  core_field_value st src fa = Some v <->
  exists off bs, field_reloc (ks_btf st) fa = Some off /\
    load_bytes (ks_mem st) (src +ₐ off) (sizeof (fa_type fa)) = Some bs /\
    v = decode (fa_type fa) bs.
Proof.
  unfold core_field_value. split.
  - intros H. apply bind_Some in H as (off & Hoff & H).
    apply bind_Some in H as (bs & Hbs & [= <-]). eauto.
  - intros (off & bs & Hoff & Hbs & ->). rewrite Hoff. simpl. rewrite Hbs. reflexivity.
Qed.

Lemma core_field_value_None st src fa :
  core_field_value st src fa = None <->
  field_reloc (ks_btf st) fa = None \/
  exists off, field_reloc (ks_btf st) fa = Some off /\
    load_bytes (ks_mem st) (src +ₐ off) (sizeof (fa_type fa)) = None.
Proof.
  unfold core_field_value. destruct (field_reloc (ks_btf st) fa) as [off|]; simpl.
  - destruct (load_bytes _ _ _) eqn:E; simpl; split.
    + discriminate.
    + intros [? | (off' & [= <-] & H)]; congruence.
    + intros _. right. eauto.
    + reflexivity.
  - split; [left; reflexivity | reflexivity].
Qed.

Lemma core_read_hit st src fa v :
  core_field_value st src fa = Some v -> core_read st src fa = v.
Proof.
  intros (off & bs & Hoff & Hbs & ->)%core_field_value_Some.
  unfold core_read. rewrite Hoff, (bpf_probe_read_kernel_ok _ _ _ _ Hbs). reflexivity.
Qed.

(** A field that cannot be read yields the zero-filled [__r], i.e. 0. *)
Lemma core_read_miss st src fa :
  core_field_value st src fa = None -> core_read st src fa = 0.
Proof.
  intros [Hoff | (off & Hoff & Hbs)]%core_field_value_None; unfold core_read;
    rewrite Hoff; [reflexivity |].
  rewrite (bpf_probe_read_kernel_fault _ _ _ Hbs). apply decode_zeros.
Qed.

Lemma core_field_value_range st src fa v :
  core_field_value st src fa = Some v -> in_range (fa_type fa) v.
Proof.
  intros (off & bs & Hoff & Hbs & ->)%core_field_value_Some.
  apply decode_range. eapply length_load_bytes, Hbs.
Qed.


Lemma length_encode t v : length (encode t v) = sizeof t.
Proof. unfold encode. pulsar_simpl. Qed.

Lemma core_field_value_store st src fa v :
  is_Some (field_reloc (ks_btf st) fa) -> in_range (fa_type fa) v ->
  core_field_value (store_field st src fa v) src fa = Some v.
Proof.
  intros [off Hoff] Hv. unfold store_field. rewrite Hoff.
  apply core_field_value_Some. exists off, (encode (fa_type fa) v). simpl.
  split; [exact Hoff |]. split; [| symmetry; apply decode_encode, Hv].
  rewrite <- (length_encode (fa_type fa) v). apply load_store_bytes.
  rewrite length_encode. destruct (fa_type fa); simpl; lia.
Qed.

#[export] Instance core_reader_laws : FieldReaderLaws kstate := {|
  field_value := core_field_value;
  read_hit := core_read_hit;
  read_miss := core_read_miss;
  field_value_range := core_field_value_range
|}.

(** ** Stores and aliases *)

Lemma store_field_btf st src fa v : ks_btf (store_field st src fa v) = ks_btf st.
Proof. unfold store_field. destruct (field_reloc _ _); reflexivity. Qed.

(** A store to a field whose bytes miss those of another field leaves
    the other field's value. *)
Lemma core_field_value_store_other st src fa off src' fa' off' v :
  field_reloc (ks_btf st) fa = Some off -> field_reloc (ks_btf st) fa' = Some off' ->
  footprint (src +ₐ off) (sizeof (fa_type fa)) ## footprint (src' +ₐ off') (sizeof (fa_type fa')) ->
  core_field_value (store_field st src' fa' v) src fa = core_field_value st src fa.
Proof.
  intros Hoff Hoff' Hd. unfold core_field_value, store_field. rewrite Hoff'. simpl.
  rewrite Hoff. simpl. rewrite load_bytes_store_disjoint; [reflexivity |].
  rewrite length_encode. intros k Hk Hk'. exact (Hd k Hk Hk').
Qed.

(** Two field accesses that relocate to the same address and type read
    the same bytes. *)
Lemma core_field_value_alias st src1 fa1 o1 src2 fa2 o2 :
  field_reloc (ks_btf st) fa1 = Some o1 -> field_reloc (ks_btf st) fa2 = Some o2 ->
  src1 +ₐ o1 = src2 +ₐ o2 -> fa_type fa1 = fa_type fa2 ->
  core_field_value st src1 fa1 = core_field_value st src2 fa2.
Proof. intros H1 H2 Ha Ht. unfold core_field_value. rewrite H1, H2. simpl. rewrite Ha, Ht. reflexivity. Qed.
