(* ===== verification/Kernels.v ===== *)
(** * Two kernel layouts for the examples

    Concrete BTF descriptions of the seven structures the accessors read
    (and of the embedded [struct path], [struct list_head] and
    [atomic_t]), for two kernels that lay them out differently:
    [btf_a], and [btf_b] whose members sit at other offsets and are
    declared in another order (as a different kernel version, or a
    kernel built with struct layout randomization, has them).  The
    offsets are illustrative, not those of a particular release.  The
    examples of the later files run the accessors on both. *)

From S2P Require Import Prelude CTypes Memory Btf CoreRead.

Definition int_t : btf_type := BInt 4 true.
Definition u64_t : btf_type := BInt 8 false.

Definition list_head_members : list btf_member :=
  [mk_member "next" 0 BPtr; mk_member "prev" 8 BPtr].
Definition path_members : list btf_member :=
  [mk_member "mnt" 0 BPtr; mk_member "dentry" 8 BPtr].
Definition atomic_t_members : list btf_member := [mk_member "counter" 0 int_t].

Definition task_struct_a : list btf_member := [
  mk_member "mm" 1168 BPtr; mk_member "exit_code" 1228 int_t;
  mk_member "pid" 1256 int_t; mk_member "tgid" 1260 int_t;
  mk_member "parent" 1280 BPtr; mk_member "children" 1288 (BStruct "list_head");
  mk_member "sibling" 1304 (BStruct "list_head"); mk_member "group_leader" 1320 BPtr;
  mk_member "signal" 1912 BPtr].

Definition btf_a : btf := list_to_map [
  ("task_struct", task_struct_a);
  ("mm_struct", [mk_member "arg_start" 304 u64_t; mk_member "arg_end" 312 u64_t]);
  ("signal_struct", [mk_member "live" 12 (BStruct "atomic_t")]);
  ("linux_binprm", [mk_member "file" 80 BPtr; mk_member "argc" 200 int_t;
                    mk_member "filename" 208 BPtr]);
  ("file", [mk_member "f_path" 16 (BStruct "path")]);
  ("cgroup", [mk_member "kn" 256 BPtr]);
  ("kernfs_node", [mk_member "id" 80 u64_t]);
  ("list_head", list_head_members);
  ("path", path_members);
  ("atomic_t", atomic_t_members)].

Definition btf_b : btf := list_to_map [
  ("task_struct", [
     mk_member "signal" 1848 BPtr; mk_member "group_leader" 1296 BPtr;
     mk_member "sibling" 1280 (BStruct "list_head"); mk_member "children" 1264 (BStruct "list_head");
     mk_member "parent" 1256 BPtr; mk_member "tgid" 1244 int_t;
     mk_member "pid" 1240 int_t; mk_member "exit_code" 1212 int_t;
     mk_member "mm" 1144 BPtr]);
  ("mm_struct", [mk_member "arg_end" 288 u64_t; mk_member "arg_start" 280 u64_t]);
  ("signal_struct", [mk_member "live" 8 (BStruct "atomic_t")]);
  ("linux_binprm", [mk_member "filename" 96 BPtr; mk_member "argc" 88 int_t;
                    mk_member "file" 64 BPtr]);
  ("file", [mk_member "f_path" 8 (BStruct "path")]);
  ("cgroup", [mk_member "kn" 248 BPtr]);
  ("kernfs_node", [mk_member "id" 72 u64_t]);
  ("list_head", list_head_members);
  ("path", path_members);
  ("atomic_t", atomic_t_members)].

(** [btf_a] with the members of [task_struct] declared in reverse order. *)
Definition btf_a_reordered : btf := <["task_struct" := reverse task_struct_a]> btf_a.

(** Kernel addresses used by the examples. *)
Definition task_addr : Z := 0xffff888004a3c000.
Definition mm_addr : Z := 0xffff888004b12000.
Definition signal_addr : Z := 0xffff888004b40000.
