(* ===== verification/Accessors.v ===== *)
(** * The struct accessor facade: [vmlinux_access.c]

    One definition per function of the source, in the source's order,
    each written as the source writes it: the null guard with the
    function's sentinel, then [BPF_CORE_READ] of the field path.  They
    are written against the reader interface [FieldReader] (a Section
    [Context]), so the facade theorems hold for any reader that obeys
    [FieldReaderLaws] and, in particular, for the CO-RE reader.

    [accessor] enumerates the prototypes of [vmlinux_access.h];
    [run_accessor] calls the function an [accessor] names.  [result_type]
    and [accessor_field] read the return type and the field path off the
    source; [sentinel] is the spec's rule for the "unavailable" value of
    a return type (absent handle, -1, maximum unsigned). *)

From S2P Require Import Prelude CTypes Memory Btf CoreRead Kernels.

Section Facade.
Context {St : Type} {R : FieldReader St}.

(** *** struct cgroup *)

Definition cgroup_kn (st : St) (cgrp : Z) : Z :=
  if cgrp =? 0 then 0
  else BPF_CORE_READ st cgrp (field "cgroup" ["kn"] CPtr).

(** *** struct file *)

Definition file_f_path_mnt (st : St) (file : Z) : Z :=
  if file =? 0 then 0
  else BPF_CORE_READ st file (field "file" ["f_path"; "mnt"] CPtr).

Definition file_f_path_dentry (st : St) (file : Z) : Z :=
  if file =? 0 then 0
  else BPF_CORE_READ st file (field "file" ["f_path"; "dentry"] CPtr).

(** *** struct kernfs_node *)

Definition kernfs_node_id (st : St) (kn : Z) : Z :=
  if kn =? 0 then ULONG_MAX
  else BPF_CORE_READ st kn (field "kernfs_node" ["id"] CU64).

(** *** struct linux_binprm *)

Definition linux_binprm_file (st : St) (bprm : Z) : Z :=
  if bprm =? 0 then 0
  else BPF_CORE_READ st bprm (field "linux_binprm" ["file"] CPtr).

Definition linux_binprm_argc (st : St) (bprm : Z) : Z :=
  if bprm =? 0 then -1
  else BPF_CORE_READ st bprm (field "linux_binprm" ["argc"] CInt).

Definition linux_binprm_filename (st : St) (bprm : Z) : Z :=
  if bprm =? 0 then 0
  else BPF_CORE_READ st bprm (field "linux_binprm" ["filename"] CPtr).

(** *** struct signal_struct *)

Definition signal_struct_live_counter (st : St) (signal : Z) : Z :=
  if signal =? 0 then -1
  else BPF_CORE_READ st signal (field "signal_struct" ["live"; "counter"] CInt).

(** *** struct mm_struct *)

Definition mm_struct_arg_start (st : St) (mm : Z) : Z :=
  if mm =? 0 then ULONG_MAX
  else BPF_CORE_READ st mm (field "mm_struct" ["arg_start"] CULong).

Definition mm_struct_arg_end (st : St) (mm : Z) : Z :=
  if mm =? 0 then ULONG_MAX
  else BPF_CORE_READ st mm (field "mm_struct" ["arg_end"] CULong).

(** *** struct task_struct *)

Definition task_struct_mm (st : St) (task : Z) : Z :=
  if task =? 0 then 0
  else BPF_CORE_READ st task (field "task_struct" ["mm"] CPtr).

Definition task_struct_exit_code (st : St) (task : Z) : Z :=
  if task =? 0 then -1
  else BPF_CORE_READ st task (field "task_struct" ["exit_code"] CInt).

Definition task_struct_pid (st : St) (task : Z) : Z :=
  if task =? 0 then -1
  else BPF_CORE_READ st task (field "task_struct" ["pid"] CInt).

Definition task_struct_tgid (st : St) (task : Z) : Z :=
  if task =? 0 then -1
  else BPF_CORE_READ st task (field "task_struct" ["tgid"] CInt).

Definition task_struct_parent (st : St) (task : Z) : Z :=
  if task =? 0 then 0
  else BPF_CORE_READ st task (field "task_struct" ["parent"] CPtr).

Definition task_struct_children_next (st : St) (task : Z) : Z :=
  if task =? 0 then 0
  else BPF_CORE_READ st task (field "task_struct" ["children"; "next"] CPtr).

Definition task_struct_sibling_next (st : St) (task : Z) : Z :=
  if task =? 0 then 0
  else BPF_CORE_READ st task (field "task_struct" ["sibling"; "next"] CPtr).

Definition task_struct_group_leader (st : St) (task : Z) : Z :=
  if task =? 0 then 0
  else BPF_CORE_READ st task (field "task_struct" ["group_leader"] CPtr).

Definition task_struct_signal (st : St) (task : Z) : Z :=
  if task =? 0 then 0
  else BPF_CORE_READ st task (field "task_struct" ["signal"] CPtr).
End Facade.

(** ** The prototypes of [vmlinux_access.h] *)

Inductive accessor :=
  | Acgroup_kn
  | Afile_f_path_mnt | Afile_f_path_dentry
  | Akernfs_node_id
  | Alinux_binprm_file | Alinux_binprm_argc | Alinux_binprm_filename
  | Asignal_struct_live_counter
  | Amm_struct_arg_start | Amm_struct_arg_end
  | Atask_struct_mm | Atask_struct_exit_code | Atask_struct_pid | Atask_struct_tgid
  | Atask_struct_parent | Atask_struct_children_next | Atask_struct_sibling_next
  | Atask_struct_group_leader | Atask_struct_signal.

#[export] Instance accessor_eq_dec : EqDecision accessor.
Proof. solve_decision. Defined.

Definition all_accessors : list accessor :=
  [Acgroup_kn; Afile_f_path_mnt; Afile_f_path_dentry; Akernfs_node_id;
   Alinux_binprm_file; Alinux_binprm_argc; Alinux_binprm_filename;
   Asignal_struct_live_counter; Amm_struct_arg_start; Amm_struct_arg_end;
   Atask_struct_mm; Atask_struct_exit_code; Atask_struct_pid; Atask_struct_tgid;
   Atask_struct_parent; Atask_struct_children_next; Atask_struct_sibling_next;
   Atask_struct_group_leader; Atask_struct_signal].

(** The call [f(st, p)] of the function [acc] names. *)
Definition run_accessor {St} {R : FieldReader St} (acc : accessor) : St -> Z -> Z :=
  match acc with
  | Acgroup_kn => cgroup_kn
  | Afile_f_path_mnt => file_f_path_mnt
  | Afile_f_path_dentry => file_f_path_dentry
  | Akernfs_node_id => kernfs_node_id
  | Alinux_binprm_file => linux_binprm_file
  | Alinux_binprm_argc => linux_binprm_argc
  | Alinux_binprm_filename => linux_binprm_filename
  | Asignal_struct_live_counter => signal_struct_live_counter
  | Amm_struct_arg_start => mm_struct_arg_start
  | Amm_struct_arg_end => mm_struct_arg_end
  | Atask_struct_mm => task_struct_mm
  | Atask_struct_exit_code => task_struct_exit_code
  | Atask_struct_pid => task_struct_pid
  | Atask_struct_tgid => task_struct_tgid
  | Atask_struct_parent => task_struct_parent
  | Atask_struct_children_next => task_struct_children_next
  | Atask_struct_sibling_next => task_struct_sibling_next
  | Atask_struct_group_leader => task_struct_group_leader
  | Atask_struct_signal => task_struct_signal
  end.

(** The field path and build-time type each function reads. *)
Definition accessor_field (acc : accessor) : field_access :=
  match acc with
  | Acgroup_kn => field "cgroup" ["kn"] CPtr
  | Afile_f_path_mnt => field "file" ["f_path"; "mnt"] CPtr
  | Afile_f_path_dentry => field "file" ["f_path"; "dentry"] CPtr
  | Akernfs_node_id => field "kernfs_node" ["id"] CU64
  | Alinux_binprm_file => field "linux_binprm" ["file"] CPtr
  | Alinux_binprm_argc => field "linux_binprm" ["argc"] CInt
  | Alinux_binprm_filename => field "linux_binprm" ["filename"] CPtr
  | Asignal_struct_live_counter => field "signal_struct" ["live"; "counter"] CInt
  | Amm_struct_arg_start => field "mm_struct" ["arg_start"] CULong
  | Amm_struct_arg_end => field "mm_struct" ["arg_end"] CULong
  | Atask_struct_mm => field "task_struct" ["mm"] CPtr
  | Atask_struct_exit_code => field "task_struct" ["exit_code"] CInt
  | Atask_struct_pid => field "task_struct" ["pid"] CInt
  | Atask_struct_tgid => field "task_struct" ["tgid"] CInt
  | Atask_struct_parent => field "task_struct" ["parent"] CPtr
  | Atask_struct_children_next => field "task_struct" ["children"; "next"] CPtr
  | Atask_struct_sibling_next => field "task_struct" ["sibling"; "next"] CPtr
  | Atask_struct_group_leader => field "task_struct" ["group_leader"] CPtr
  | Atask_struct_signal => field "task_struct" ["signal"] CPtr
  end.

(** The return type of each function is the type of the field it reads. *)
Definition result_type (acc : accessor) : ctype := fa_type (accessor_field acc).

(** Spec section 3: absent handle for pointers, -1 for signed integers,
    the maximum value for unsigned ones. *)
Definition sentinel_of (t : ctype) : Z :=
  match t with
  | CPtr => 0
  | CInt => -1
  | CULong | CU64 => ULONG_MAX
  end.

Definition sentinel (acc : accessor) : Z := sentinel_of (result_type acc).

Definition pid_field : field_access := accessor_field Atask_struct_pid.

(** A kernel with layout [btf_a] holding a task whose pid is 1234. *)
Definition st_pid_1234 : kstate := store_field (mk_kstate btf_a ∅) task_addr pid_field 1234.

(** A dangling task pointer: nothing is mapped at [task_addr]. *)
Definition st_unmapped : kstate := mk_kstate btf_a ∅.

(** ** The template every function follows *)

(** Every function of the file is the guarded read of its field, with
    the sentinel of its return type on a null handle. *)
Lemma accessor_template {St} {R : FieldReader St} acc st p :
  run_accessor acc st p =
    if p =? 0 then sentinel acc else BPF_CORE_READ st p (accessor_field acc).
Proof. destruct acc; reflexivity. Qed.

(** Unfold [run_accessor] and the nineteen functions. *)
Ltac unfold_accessors :=
  cbv delta [run_accessor cgroup_kn file_f_path_mnt file_f_path_dentry kernfs_node_id
    linux_binprm_file linux_binprm_argc linux_binprm_filename signal_struct_live_counter
    mm_struct_arg_start mm_struct_arg_end task_struct_mm task_struct_exit_code
    task_struct_pid task_struct_tgid task_struct_parent task_struct_children_next
    task_struct_sibling_next task_struct_group_leader task_struct_signal] beta iota.

(** On a non-null handle, every function is the read of its field. *)
Lemma accessor_nonnull {St} {R : FieldReader St} acc st p :
  p <> 0 -> run_accessor acc st p = BPF_CORE_READ st p (accessor_field acc).
Proof.
  intros Hp. destruct acc; unfold_accessors; try rewrite (null_test_false p Hp); reflexivity.
Qed.

(** On a null handle, no function depends on the kernel. *)
Lemma accessor_null_indep {St} {R : FieldReader St} acc st1 st2 :
  run_accessor acc st1 0 = run_accessor acc st2 0.
Proof. destruct acc; reflexivity. Qed.

Lemma elem_of_all_accessors acc : acc ∈ all_accessors.
Proof. destruct acc; unfold all_accessors; set_solver. Qed.

Lemma sentinel_in_range acc : in_range (result_type acc) (sentinel acc).
Proof.
  unfold sentinel. destruct (result_type acc); cbn [sentinel_of];
    unfold in_range, ULONG_MAX; ctype_compute; lia.
Qed.

Lemma zero_in_range t : in_range t 0.
Proof. destruct t; unfold in_range; ctype_compute; lia. Qed.

(** Only the pointer sentinel is 0. *)
Lemma sentinel_zero_iff acc : sentinel acc = 0 <-> result_type acc = CPtr.
Proof.
  unfold sentinel. destruct (result_type acc); unfold ULONG_MAX; simpl;
    split; intros H; (reflexivity || discriminate || lia).
Qed.

#[export] Hint Resolve sentinel_in_range zero_in_range elem_of_all_accessors : pulsar.

(** ** Facade theorems *)

(** C1.  On a null handle every function returns the sentinel of its
    return type, whatever the reader: no read is attempted, since the
    result does not depend on the reader at all. *)
Theorem accessor_null_sentinel {St} (R : FieldReader St) acc st :
  run_accessor acc st 0 = sentinel acc.
Proof. rewrite accessor_template. reflexivity. Qed.

Section WithLaws.
Context {St : Type} {R : FieldReader St} {L : FieldReaderLaws St}.

(** C2.  On a non-null handle whose field can be read, every function
    returns the value stored in the field. *)
Theorem accessor_read_value acc st p v :
  p <> 0 -> field_value st p (accessor_field acc) = Some v -> run_accessor acc st p = v.
Proof. intros Hp Hv. rewrite accessor_nonnull by exact Hp. apply read_hit, Hv. Qed.

(** On a non-null handle whose field cannot be read, every function
    returns 0: the zero-filled destination of the failed read. *)
Lemma accessor_read_fail acc st p :
  p <> 0 -> field_value st p (accessor_field acc) = None -> run_accessor acc st p = 0.
Proof. intros Hp Hv. rewrite accessor_nonnull by exact Hp. apply read_miss, Hv. Qed.

(** C3.  A failed read is not reported with the sentinel: for the
    integer accessors ([int] and unsigned results) an unreadable field
    gives 0, which is not the sentinel and is a legitimate value (pid 0,
    exit code 0, argc 0).  Spec section 4.2 step 3 says otherwise. *)
Theorem accessor_read_fail_not_sentinel acc st p :
  p <> 0 -> field_value st p (accessor_field acc) = None -> result_type acc <> CPtr ->
  run_accessor acc st p <> sentinel acc.
Proof.
  intros Hp Hv Ht. rewrite accessor_read_fail by assumption.
  intros H. apply Ht, sentinel_zero_iff. symmetry. exact H.
Qed.

(** Every function returns a value of its return type, on every
    input: the sentinel, the stored value, or 0. *)
Theorem accessor_result_range acc st p : in_range (result_type acc) (run_accessor acc st p).
Proof.
  rewrite accessor_template. case_null p; [auto with pulsar |].
  destruct (field_value st p (accessor_field acc)) as [v|] eqn:E.
  - rewrite (read_hit _ _ _ _ E). apply (field_value_range _ _ _ _ E).
  - rewrite (read_miss _ _ _ E). auto with pulsar.
Qed.
End WithLaws.

(** After the kernel stores a value of the return type into the
    field an accessor reads, the accessor returns that value: a store and
    a CO-RE read of the same relocated field round-trip. *)
Theorem accessor_store_roundtrip acc st p v :
  p <> 0 -> is_Some (field_reloc (ks_btf st) (accessor_field acc)) ->
  in_range (result_type acc) v ->
  run_accessor acc (store_field st p (accessor_field acc) v) p = v.
Proof.
  intros Hp Hrel Hv. rewrite accessor_nonnull by exact Hp.
  apply core_read_hit, core_field_value_store; assumption.
Qed.

(** An accessor that reads a member of an embedded struct
    ([f_path.mnt], [f_path.dentry], [live.counter], [children.next],
    [sibling.next]) reads that member of the embedded struct at its
    relocated address: the chained path is one relocation whose offset is
    the sum of the two. *)
Theorem embedded_field_read acc st p s f g t o s' :
  p <> 0 -> accessor_field acc = field s [f; g] t ->
  resolve (ks_btf st) (BStruct s) [f] = Some (o, BStruct s') ->
  run_accessor acc st p = core_read st (p +ₐ o) (field s' [g] t).
Proof.
  intros Hp Hacc Hres. rewrite accessor_nonnull by exact Hp. rewrite Hacc.
  change (core_read st p (field s [f; g] t) = core_read st (p +ₐ o) (field s' [g] t)).
  unfold core_read. rewrite (field_reloc_embedded _ _ _ _ _ _ _ Hres).
  destruct (field_reloc (ks_btf st) (field s' [g] t)) as [o2|]; simpl; [| reflexivity].
  rewrite addr_add_assoc. reflexivity.
Qed.

(** Declaring the members of the kernel's structs in another order
    (with unique names) changes no accessor's result: fields are found by
    name, not by position. *)
Theorem accessor_btf_perm acc B1 B2 m p :
  btf_perm B1 B2 -> run_accessor acc (mk_kstate B1 m) p = run_accessor acc (mk_kstate B2 m) p.
Proof.
  intros HB. case_null p; [apply accessor_null_indep |]. rewrite !accessor_nonnull by exact Hnull.
  change (core_read (mk_kstate B1 m) p (accessor_field acc) = core_read (mk_kstate B2 m) p (accessor_field acc)).
  unfold core_read. simpl. rewrite (field_reloc_perm B1 B2 _ HB). reflexivity.
Qed.

(** ** Examples *)



Example task_struct_pid_1234 : task_struct_pid st_pid_1234 task_addr = 1234.
Proof. vm_compute. reflexivity. Qed.

Example task_struct_pid_null : task_struct_pid st_pid_1234 0 = -1.
Proof. reflexivity. Qed.

Lemma accessor_read_value_witness :
  task_addr <> 0 /\ field_value st_pid_1234 task_addr pid_field = Some 1234 /\
  run_accessor Atask_struct_pid st_pid_1234 task_addr = 1234.
Proof.
  split; [discriminate |]. split; [vm_compute; reflexivity |].
  apply (accessor_read_value Atask_struct_pid st_pid_1234 task_addr 1234);
    [discriminate | vm_compute; reflexivity].
Defined.


Lemma accessor_read_fail_not_sentinel_witness :
  task_addr <> 0 /\ field_value st_unmapped task_addr pid_field = None /\
  result_type Atask_struct_pid <> CPtr /\
  run_accessor Atask_struct_pid st_unmapped task_addr <> sentinel Atask_struct_pid.
Proof.
  split; [discriminate |]. split; [vm_compute; reflexivity |]. split; [discriminate |].
  apply (accessor_read_fail_not_sentinel Atask_struct_pid st_unmapped task_addr);
    [discriminate | vm_compute; reflexivity | discriminate].
Defined.

(** The failed read of a dangling task's pid and the read of a real task
    whose pid is 0 (the idle task) return the same value. *)
Example pid_failure_aliases_pid_0 :
  task_struct_pid st_unmapped task_addr =
  task_struct_pid (store_field (mk_kstate btf_a ∅) task_addr pid_field 0) task_addr.
Proof. vm_compute. reflexivity. Qed.

