(* ===== verification/Objects.v ===== *)
(** * The abstract kernel objects and the refinement theorem

    Spec section 3 describes the foreign structures by their meaning: a
    process descriptor has a pid, a tgid, a parent handle, ...  A [view]
    is that description: the kernel objects the monitor may reach, by
    address, each a record of the fields the accessors read.
    [view_read] is the spec's accessor on a view (section 4.2): absent
    handle or missing object gives [Unavailable], otherwise the field's
    value.  [represents st V] says that the kernel [st] (its BTF and its
    memory) holds the view: every field of every object can be read at
    its relocated offset and holds the view's value.

    The refinement theorem: on any kernel that represents a view, every
    accessor called on an object of the view returns the object's field,
    whatever the kernel's layout (a handle to no object of the view reads
    whatever memory holds there, 0 when it is unmapped); so
    two kernels with different layouts that hold the same objects give
    the same results, and the caller's reading of a result ([observe]:
    the sentinel means unavailable) is the spec's accessor, as long as
    no stored value is the sentinel.

    The hypothesis is not vacuous: [build_kstate B V] writes every
    field of every object of [V] at its offset in the layout [B]
    ([view_writes], then [store_all]), and represents [V] whenever
    [layout_ok B V] holds: every field relocates and the fields' bytes
    do not overlap. *)

From S2P Require Import Prelude CTypes Memory Btf CoreRead Kernels Accessors.

(** ** Kernel objects *)

Record task_v := mk_task {
  t_pid : Z; t_tgid : Z; t_exit_code : Z; t_mm : Z; t_parent : Z;
  t_children_next : Z; t_sibling_next : Z; t_group_leader : Z; t_signal : Z }.
Record mm_v := mk_mm { mm_arg_start : Z; mm_arg_end : Z }.
Record signal_v := mk_signal { sig_live : Z }.
Record binprm_v := mk_binprm { bprm_file : Z; bprm_argc : Z; bprm_filename : Z }.
Record file_v := mk_file { f_mnt : Z; f_dentry : Z }.
Record cgroup_v := mk_cgroup { cg_kn : Z }.
Record kernfs_v := mk_kernfs { kn_id : Z }.

Inductive kobj :=
  | OTask (t : task_v) | OMm (m : mm_v) | OSignal (s : signal_v)
  | OBinprm (b : binprm_v) | OFile (f : file_v) | OCgroup (c : cgroup_v)
  | OKernfs (k : kernfs_v).

Abbreviation view := (gmap Z kobj).

(** The field an accessor reads, on an object of the right structure. *)
Definition obj_field (acc : accessor) (o : kobj) : option Z :=
  match acc, o with
  | Acgroup_kn, OCgroup c => Some (cg_kn c)
  | Afile_f_path_mnt, OFile f => Some (f_mnt f)
  | Afile_f_path_dentry, OFile f => Some (f_dentry f)
  | Akernfs_node_id, OKernfs k => Some (kn_id k)
  | Alinux_binprm_file, OBinprm b => Some (bprm_file b)
  | Alinux_binprm_argc, OBinprm b => Some (bprm_argc b)
  | Alinux_binprm_filename, OBinprm b => Some (bprm_filename b)
  | Asignal_struct_live_counter, OSignal s => Some (sig_live s)
  | Amm_struct_arg_start, OMm m => Some (mm_arg_start m)
  | Amm_struct_arg_end, OMm m => Some (mm_arg_end m)
  | Atask_struct_mm, OTask t => Some (t_mm t)
  | Atask_struct_exit_code, OTask t => Some (t_exit_code t)
  | Atask_struct_pid, OTask t => Some (t_pid t)
  | Atask_struct_tgid, OTask t => Some (t_tgid t)
  | Atask_struct_parent, OTask t => Some (t_parent t)
  | Atask_struct_children_next, OTask t => Some (t_children_next t)
  | Atask_struct_sibling_next, OTask t => Some (t_sibling_next t)
  | Atask_struct_group_leader, OTask t => Some (t_group_leader t)
  | Atask_struct_signal, OTask t => Some (t_signal t)
  | _, _ => None
  end.

(** ** The spec's accessor *)

Inductive outcome := Unavailable | Value (v : Z).

#[export] Instance outcome_eq_dec : EqDecision outcome.
Proof. solve_decision. Defined.

Definition view_read (V : view) (acc : accessor) (p : Z) : outcome :=
  if p =? 0 then Unavailable
  else match V !! p ≫= obj_field acc with Some v => Value v | None => Unavailable end.

(** How a caller reads a result (spec section 6): the sentinel means
    unavailable, anything else is a value. *)
Definition observe (acc : accessor) (r : Z) : outcome :=
  if r =? sentinel acc then Unavailable else Value r.

(** ** Representation *)

Definition represents (st : kstate) (V : view) : Prop :=
  forall p o acc v, V !! p = Some o -> obj_field acc o = Some v ->
    core_field_value st p (accessor_field acc) = Some v.

Definition obj_represented_b (st : kstate) (p : Z) (o : kobj) : bool :=
  forallb (fun acc =>
    match obj_field acc o with
    | Some v => bool_decide (core_field_value st p (accessor_field acc) = Some v)
    | None => true
    end) all_accessors.

Definition represents_b (st : kstate) (V : view) : bool :=
  forallb (fun '(p, o) => obj_represented_b st p o) (map_to_list V).

(** The values the caller could not tell from "unavailable". *)
Definition view_avoids_sentinels (V : view) : Prop :=
  forall p o acc v, V !! p = Some o -> obj_field acc o = Some v -> v <> sentinel acc.

(** The kernel writes that lay out the object [o] at [p] with the BTF
    [B]: each field's value, encoded at its type, at its relocated
    offset. *)
Definition obj_writes (B : btf) (p : Z) (o : kobj) : list (Z * list byte) :=
  omap (fun acc =>
    v ← obj_field acc o;
    off ← field_reloc B (accessor_field acc);
    Some (p +ₐ off, encode (result_type acc) v)) all_accessors.

Definition view_writes (B : btf) (V : view) : list (Z * list byte) :=
  map_to_list V ≫= (fun '(p, o) => obj_writes B p o).

(** A kernel whose memory holds exactly the objects of [V], laid out
    with the BTF [B]. *)
Definition build_kstate (B : btf) (V : view) : kstate :=
  mk_kstate B (store_all ∅ (view_writes B V)).

(** The BTF [B] can lay out [V]: every field of every object relocates,
    holds a value of its type, and no two fields share a byte. *)
Definition layout_ok (B : btf) (V : view) : Prop :=
  (forall p o acc v, V !! p = Some o -> obj_field acc o = Some v ->
     is_Some (field_reloc B (accessor_field acc)) /\ in_range (result_type acc) v) /\
  writes_disjoint (view_writes B V) = true.

Definition layout_ok_b (B : btf) (V : view) : bool :=
  forallb (fun '(p, o) => forallb (fun acc =>
    match obj_field acc o with
    | Some v => bool_decide (is_Some (field_reloc B (accessor_field acc))) && in_range_b (result_type acc) v
    | None => true
    end) all_accessors) (map_to_list V)
  && writes_disjoint (view_writes B V).

(** A process with pid 1234 whose argv spans
    [0x7ffee0001000, 0x7ffee0001050), in a thread group with three live
    threads (spec section 8). *)
Definition demo_task : task_v := {|
  t_pid := 1234; t_tgid := 1234; t_exit_code := 0; t_mm := mm_addr;
  t_parent := task_addr + 0x1000; t_children_next := task_addr + 1288;
  t_sibling_next := task_addr + 1304; t_group_leader := task_addr; t_signal := signal_addr |}.

Definition demo_view : view :=
  <[task_addr := OTask demo_task]> (<[mm_addr := OMm (mk_mm 0x7ffee0001000 0x7ffee0001050)]>
    (<[signal_addr := OSignal (mk_signal 3)]> ∅)).

Definition kernel_a : kstate := build_kstate btf_a demo_view.
Definition kernel_b : kstate := build_kstate btf_b demo_view.

(** A kernel thread: a task without a memory space. *)
Definition kthread_task : task_v := {|
  t_pid := 2; t_tgid := 2; t_exit_code := 0; t_mm := 0; t_parent := 0;
  t_children_next := task_addr + 1264; t_sibling_next := task_addr + 1280;
  t_group_leader := task_addr; t_signal := signal_addr |}.

Definition kthread_view : view := <[task_addr := OTask kthread_task]> ∅.

(** ** Lemmas *)

Lemma represents_b_sound st V : represents_b st V = true -> represents st V.
Proof.
  unfold represents_b, represents. intros Hb p o acc v Hp Hf.
  apply forallb_forall with (x := (p, o)) in Hb; [| apply list_elem_of_In, elem_of_map_to_list, Hp].
  unfold obj_represented_b in Hb.
  apply forallb_forall with (x := acc) in Hb; [| apply list_elem_of_In, elem_of_all_accessors].
  rewrite Hf in Hb. apply bool_decide_eq_true in Hb. exact Hb.
Qed.



Lemma layout_ok_b_sound B V : layout_ok_b B V = true -> layout_ok B V.
Proof.
  unfold layout_ok_b. intros [Hf Hd]%andb_true_iff. split; [| exact Hd].
  intros p o acc v Hp Hv.
  apply forallb_forall with (x := (p, o)) in Hf; [| apply list_elem_of_In, elem_of_map_to_list, Hp].
  apply forallb_forall with (x := acc) in Hf; [| apply list_elem_of_In, elem_of_all_accessors].
  rewrite Hv in Hf. apply andb_true_iff in Hf as [Hr Hi].
  split; [apply (bool_decide_eq_true _), Hr | apply in_range_b_spec, Hi].
Qed.

Lemma elem_of_view_writes B V p o acc v off :
  V !! p = Some o -> obj_field acc o = Some v -> field_reloc B (accessor_field acc) = Some off ->
  (p +ₐ off, encode (result_type acc) v) ∈ view_writes B V.
Proof.
  intros Hp Hv Hoff. unfold view_writes. apply list_elem_of_bind.
  exists (p, o). split; [| apply elem_of_map_to_list, Hp].
  unfold obj_writes. apply list_elem_of_omap. exists acc.
  split; [apply elem_of_all_accessors |]. rewrite Hv. simpl. rewrite Hoff. reflexivity.
Qed.

(** The read of a field of an object the kernel represents. *)
Lemma represented_read st V acc p v :
  represents st V -> p <> 0 -> V !! p ≫= obj_field acc = Some v -> run_accessor acc st p = v.
Proof.
  intros HR Hp (o & Ho & Hf)%bind_Some.
  rewrite accessor_nonnull by exact Hp. apply core_read_hit, (HR p o acc v Ho Hf).
Qed.

Lemma view_read_Some V acc p v :
  p <> 0 -> V !! p ≫= obj_field acc = Some v -> view_read V acc p = Value v.
Proof. intros Hp Hv. unfold view_read. rewrite null_test_false, Hv by exact Hp. reflexivity. Qed.

(** ** Refinement *)

(** C4.  On a kernel that represents the view [V], for a null handle or
    a handle to an object that has the field, the caller's reading of
    every accessor's result is the spec's accessor on [V], provided no
    stored value is the sentinel. *)
Theorem observe_refinement st V acc p :
  represents st V -> view_avoids_sentinels V ->
  (p = 0 \/ is_Some (V !! p ≫= obj_field acc)) ->
  observe acc (run_accessor acc st p) = view_read V acc p.
Proof.
  intros HR Hav Hdom. destruct (Z.eqb_spec p 0) as [-> | Hp].
  - destruct acc; reflexivity.
  - destruct Hdom as [Hz | [v Hv]]; [contradiction |].
    rewrite (represented_read st V acc p v HR Hp Hv), (view_read_Some V acc p v Hp Hv).
    apply bind_Some in Hv as (o & Ho & Hf).
    unfold observe. rewrite (proj2 (Z.eqb_neq _ _) (Hav p o acc v Ho Hf)). reflexivity.
Qed.

(** On every layout whose fields relocate, hold values of their
    types and do not overlap, the kernel built by writing the objects'
    fields at their relocated offsets represents the objects: the
    hypothesis [represents] of the refinement theorems is met on every
    such kernel. *)
Theorem build_kstate_represents B V : layout_ok B V -> represents (build_kstate B V) V.
Proof.
  intros [Hf Hd] p o acc v Hp Hv. destruct (Hf p o acc v Hp Hv) as [[off Hoff] Hr].
  apply core_field_value_Some. exists off, (encode (result_type acc) v). simpl.
  split; [exact Hoff |]. split; [| symmetry; apply decode_encode, Hr].
  replace (sizeof (fa_type (accessor_field acc))) with (length (encode (result_type acc) v))
    by apply length_encode.
  apply load_store_all; [exact Hd | apply (elem_of_view_writes B V p o acc v off Hp Hv Hoff) |].
  rewrite length_encode. destruct (result_type acc); simpl; lia.
Qed.

(** Two kernels that hold the same objects give the same result for
    every accessor, whatever their layouts: the result depends on the
    objects, not on the offsets of their fields. *)
Theorem layout_independence st1 st2 V acc p :
  represents st1 V -> represents st2 V -> (p = 0 \/ is_Some (V !! p ≫= obj_field acc)) ->
  run_accessor acc st1 p = run_accessor acc st2 p.
Proof.
  intros H1 H2 [-> | [v Hv]]; [apply accessor_null_indep |].
  destruct (Z.eqb_spec p 0) as [-> | Hp]; [apply accessor_null_indep |].
  rewrite (represented_read st1 V acc p v), (represented_read st2 V acc p v); auto.
Qed.

(** C5.  The chained access "process -> memory space -> argv bounds"
    returns the bounds of the command line of the process's memory
    space. *)
Theorem chained_argv_bounds st V task t m :
  represents st V -> task <> 0 -> V !! task = Some (OTask t) ->
  t_mm t <> 0 -> V !! t_mm t = Some (OMm m) ->
  mm_struct_arg_start st (task_struct_mm st task) = mm_arg_start m /\
  mm_struct_arg_end st (task_struct_mm st task) = mm_arg_end m.
Proof.
  intros HR Htask Ht Hnz Hm.
  assert (Hmm : task_struct_mm st task = t_mm t).
  { apply (represented_read st V Atask_struct_mm); [exact HR | exact Htask | rewrite Ht; reflexivity]. }
  rewrite Hmm. split;
    [apply (represented_read st V Amm_struct_arg_start) | apply (represented_read st V Amm_struct_arg_end)];
    auto; rewrite Hm; reflexivity.
Qed.

(** C8.  A process without a memory space (a kernel thread) has no
    argv: both bounds are [ULONG_MAX], the value of an absent memory
    space, although the task itself was read. *)
Lemma kernel_thread_argv_bounds st V task t :
  represents st V -> task <> 0 -> V !! task = Some (OTask t) -> t_mm t = 0 ->
  mm_struct_arg_start st (task_struct_mm st task) = ULONG_MAX /\
  mm_struct_arg_end st (task_struct_mm st task) = ULONG_MAX.
Proof.
  intros HR Htask Ht Hz.
  assert (Hmm : task_struct_mm st task = t_mm t).
  { apply (represented_read st V Atask_struct_mm); [exact HR | exact Htask | rewrite Ht; reflexivity]. }
  rewrite Hmm, Hz. split; reflexivity.
Qed.

(** ** Examples *)




Lemma kernel_a_represents : represents kernel_a demo_view.
Proof. apply represents_b_sound. vm_compute. reflexivity. Qed.

Lemma kernel_b_represents : represents kernel_b demo_view.
Proof. apply represents_b_sound. vm_compute. reflexivity. Qed.

Lemma demo_view_avoids_sentinels : view_avoids_sentinels demo_view.
Proof.
  intros p o acc v Hp Hf. unfold demo_view in Hp.
  rewrite !lookup_insert in Hp. repeat case_decide; simplify_eq;
    destruct acc; simpl in Hf; simplify_eq; vm_compute; discriminate.
Qed.

Lemma observe_refinement_witness :
  represents kernel_a demo_view /\ view_avoids_sentinels demo_view /\
  observe Atask_struct_pid (run_accessor Atask_struct_pid kernel_a task_addr) = Value 1234.
Proof.
  split; [exact kernel_a_represents |]. split; [exact demo_view_avoids_sentinels |].
  rewrite (observe_refinement kernel_a demo_view Atask_struct_pid task_addr
             kernel_a_represents demo_view_avoids_sentinels); [vm_compute; reflexivity |].
  right. vm_compute. eexists. reflexivity.
Defined.

Lemma chained_argv_bounds_witness :
  mm_struct_arg_start kernel_b (task_struct_mm kernel_b task_addr) = 0x7ffee0001000 /\
  mm_struct_arg_end kernel_b (task_struct_mm kernel_b task_addr) = 0x7ffee0001050.
Proof.
  apply (chained_argv_bounds kernel_b demo_view task_addr demo_task (mk_mm 0x7ffee0001000 0x7ffee0001050));
    [exact kernel_b_represents | discriminate | vm_compute; reflexivity | discriminate | vm_compute; reflexivity].
Defined.

Example live_threads_3 : signal_struct_live_counter kernel_a signal_addr = 3.
Proof. vm_compute. reflexivity. Qed.

Example argv_bounds_null : (mm_struct_arg_start kernel_a 0, mm_struct_arg_end kernel_a 0) = (ULONG_MAX, ULONG_MAX).
Proof. reflexivity. Qed.



Lemma kernel_thread_argv_bounds_witness :
  represents (build_kstate btf_b kthread_view) kthread_view /\
  mm_struct_arg_start (build_kstate btf_b kthread_view)
    (task_struct_mm (build_kstate btf_b kthread_view) task_addr) = ULONG_MAX.
Proof.
  assert (HR : represents (build_kstate btf_b kthread_view) kthread_view)
    by (apply represents_b_sound; vm_compute; reflexivity).
  split; [exact HR |].
  apply (kernel_thread_argv_bounds (build_kstate btf_b kthread_view) kthread_view task_addr kthread_task);
    [exact HR | discriminate | reflexivity | reflexivity].
Defined.

