(* ===== verification/Concurrency.v ===== *)
(** * Kernel writes interleaved with the monitor's reads

    Spec section 5: the kernel mutates its memory while the monitor reads
    it, with no synchronisation; each field read is one bounded copy,
    and a composite observation made of several reads may mix instants.
    A run is an explicit sequence of [event]s: [KWrite a bs], the kernel
    storing bytes, and [MRead acc p], the monitor calling an accessor and
    logging the result.  [exec_event] executes one event, [run_events] a
    sequence, and [step] is the transition relation whose rule instances
    are the events.

    Theorems: the monitor never writes and the BTF read at load time never
    changes (an invariant of every reachable configuration); a read is
    unaffected by a write outside the bytes it reads; and a sequence of
    reads interleaved with writes that miss all of them logs exactly what
    the reads give on the initial kernel, i.e. a consistent snapshot.
    An example shows the torn observation the spec warns about when a
    write does hit a read. *)

From S2P Require Import Prelude CTypes Memory Btf CoreRead Kernels Accessors Objects.
From Stdlib Require Import Relation_Operators.

Inductive event :=
  | KWrite (a : Z) (bs : list byte)
  | MRead (acc : accessor) (p : Z).

(** The kernel, and the values the monitor has read, oldest first. *)
Record mon := mk_mon { m_st : kstate; m_log : list Z }.

Definition kernel_write (st : kstate) (a : Z) (bs : list byte) : kstate :=
  mk_kstate (ks_btf st) (store_bytes (ks_mem st) a bs).

Definition exec_event (c : mon) (e : event) : mon :=
  match e with
  | KWrite a bs => mk_mon (kernel_write (m_st c) a bs) (m_log c)
  | MRead acc p => mk_mon (m_st c) (m_log c ++ [run_accessor acc (m_st c) p])
  end.

Definition run_events (c : mon) (es : list event) : mon := fold_left exec_event es c.

Inductive step : mon -> mon -> Prop :=
  | step_event c e : step c (exec_event c e).

Definition reachable : mon -> mon -> Prop := clos_refl_trans_1n mon step.

(** The bytes an accessor reads on a non-null handle: the footprint of
    its relocated field ([] when the field does not relocate). *)
Definition read_footprint (B : btf) (acc : accessor) (p : Z) : list Z :=
  match field_reloc B (accessor_field acc) with
  | Some off => footprint (p +ₐ off) (sizeof (result_type acc))
  | None => []
  end.

(** A write that misses the bytes of every read of [es]. *)
Definition write_misses (B : btf) (es : list event) (a : Z) (bs : list byte) : Prop :=
  forall acc p, MRead acc p ∈ es -> read_footprint B acc p ## footprint a (length bs).

(** The reads of [es], all made on the kernel [st]. *)
Definition snapshot_reads (st : kstate) (es : list event) : list Z :=
  omap (fun e => match e with MRead acc p => Some (run_accessor acc st p) | KWrite _ _ => None end) es.

(** Agreement of two memories on the bytes every read of [es] reads. *)
Definition agree_on_reads (B : btf) (es : list event) (m1 m2 : kmem) : Prop :=
  forall acc p, MRead acc p ∈ es -> forall k, k ∈ read_footprint B acc p -> m1 !! k = m2 !! k.

(** The kernel overwrites the memory space's [arg_start] (8 bytes at its
    [btf_a] offset) while the monitor reads the task's pid and tgid. *)
Definition write_arg_start : event :=
  KWrite (mm_addr +ₐ 304) (encode CULong 0x7ffee0002000).

Definition pid_tgid_run : list event :=
  [MRead Atask_struct_pid task_addr; write_arg_start; MRead Atask_struct_tgid task_addr].

(** A torn observation (spec section 5): the task exits and its slot is
    reused with pid 4321 between the monitor's two reads, so the logged
    pair (pid, tgid) = (1234, 4321) holds in neither kernel state. *)
Definition reuse_pid : event := KWrite (task_addr +ₐ 1256) (encode CInt 4321).

(** ** Lemmas *)

Lemma core_read_ext st1 st2 src fa :
  ks_btf st1 = ks_btf st2 ->
  (forall off, field_reloc (ks_btf st1) fa = Some off ->
     forall k, k ∈ footprint (src +ₐ off) (sizeof (fa_type fa)) -> ks_mem st1 !! k = ks_mem st2 !! k) ->
  core_read st1 src fa = core_read st2 src fa.
Proof.
  intros HB Hk. unfold core_read, bpf_probe_read_kernel. rewrite <- HB.
  destruct (field_reloc (ks_btf st1) fa) as [off|] eqn:E; [| reflexivity].
  rewrite (load_bytes_ext (ks_mem st1) (ks_mem st2)); [reflexivity |].
  apply Hk. reflexivity.
Qed.

Lemma run_events_app c es1 es2 : run_events c (es1 ++ es2) = run_events (run_events c es1) es2.
Proof. apply fold_left_app. Qed.

Lemma reachable_run c es : reachable c (run_events c es).
Proof.
  revert c. induction es as [|e es IH]; intros c; [apply rt1n_refl |].
  eapply rt1n_trans; [apply step_event | apply IH].
Qed.

(** The reads of an accessor only depend on the BTF and on the bytes of
    its footprint. *)
Lemma run_accessor_ext st1 st2 acc p :
  ks_btf st1 = ks_btf st2 ->
  (forall k, k ∈ read_footprint (ks_btf st1) acc p -> ks_mem st1 !! k = ks_mem st2 !! k) ->
  run_accessor acc st1 p = run_accessor acc st2 p.
Proof.
  intros HB Hk. case_null p; [apply accessor_null_indep |]. rewrite !accessor_nonnull by exact Hnull.
  apply core_read_ext; [exact HB |]. intros off Hoff k Hin.
  apply Hk. unfold read_footprint. rewrite Hoff. exact Hin.
Qed.


Lemma agree_on_reads_cons B e es m1 m2 :
  agree_on_reads B (e :: es) m1 m2 -> agree_on_reads B es m1 m2.
Proof. intros H acc p Hin. apply H. right. exact Hin. Qed.

Lemma snapshot_from st c es :
  ks_btf (m_st c) = ks_btf st ->
  agree_on_reads (ks_btf st) es (ks_mem (m_st c)) (ks_mem st) ->
  (forall a bs, KWrite a bs ∈ es -> write_misses (ks_btf st) es a bs) ->
  m_log (run_events c es) = m_log c ++ snapshot_reads st es.
Proof.
  revert c. induction es as [|e es IH]; intros c HB Hag Hw; simpl.
  { rewrite app_nil_r. reflexivity. }
  assert (Hw' : forall a bs, KWrite a bs ∈ es -> write_misses (ks_btf st) es a bs).
  { intros a bs Hin acc p Hr. apply (Hw a bs (list_elem_of_further _ _ _ Hin)). right. exact Hr. }
  destruct e as [a bs | acc p]; simpl.
  - rewrite IH; [reflexivity | exact HB | | exact Hw'].
    intros acc p Hin k Hk. simpl. rewrite store_bytes_lookup_notin.
    + apply (Hag acc p (list_elem_of_further _ _ _ Hin) k Hk).
    + intros Hk'. apply (Hw a bs (list_elem_of_here _ _) acc p (list_elem_of_further _ _ _ Hin) k Hk Hk').
  - rewrite IH; [| exact HB | exact (agree_on_reads_cons _ _ _ _ _ Hag) | exact Hw'].
    cbn [m_log]. rewrite <- app_assoc. simpl.
    rewrite (run_accessor_ext (m_st c) st acc p); [reflexivity | exact HB |].
    rewrite HB. apply (Hag acc p (list_elem_of_here _ _)).
Qed.

Lemma exec_event_preserves c e :
  ks_btf (m_st (exec_event c e)) = ks_btf (m_st c) /\
  exists l, m_log (exec_event c e) = m_log c ++ l.
Proof.
  destruct e as [a bs | acc p]; simpl; (split; [reflexivity |]).
  - exists []. rewrite app_nil_r. reflexivity.
  - exists [run_accessor acc (m_st c) p]. reflexivity.
Qed.

(** ** Theorems *)

(** In every configuration reachable by kernel writes and monitor
    reads, the BTF is the one read at load time and the monitor's log
    only grew: the layout table is read-only and reads are append-only
    observations. *)
Theorem reachable_invariant c0 c :
  reachable c0 c -> ks_btf (m_st c) = ks_btf (m_st c0) /\ exists l, m_log c = m_log c0 ++ l.
Proof.
  induction 1 as [c | c1 c2 c3 Hstep _ [IHb (l & IHl)]].
  { split; [reflexivity | exists []; rewrite app_nil_r; reflexivity]. }
  inversion Hstep as [c e]; subst.
  destruct (exec_event_preserves c1 e) as [Hb (l1 & Hl1)].
  split; [congruence | exists (l1 ++ l); rewrite IHl, Hl1, app_assoc; reflexivity].
Qed.

(** C7.  A kernel write that misses the bytes an accessor reads does not
    change what the accessor returns. *)
Theorem read_stable_under_write st acc p a bs :
  read_footprint (ks_btf st) acc p ## footprint a (length bs) ->
  run_accessor acc (kernel_write st a bs) p = run_accessor acc st p.
Proof.
  intros Hd. apply run_accessor_ext; [reflexivity |]. intros k Hk. simpl.
  apply store_bytes_lookup_notin. intros Hk'. exact (Hd k Hk Hk').
Qed.

(** C6.  A run whose kernel writes all miss the bytes of all its reads
    logs exactly the reads made on the initial kernel: the composite
    observation is a consistent snapshot. *)
Theorem snapshot_consistency c es :
  (forall a bs, KWrite a bs ∈ es -> write_misses (ks_btf (m_st c)) es a bs) ->
  m_log (run_events c es) = m_log c ++ snapshot_reads (m_st c) es.
Proof.
  intros Hw. apply snapshot_from; [reflexivity | | exact Hw].
  intros acc p _ k _. reflexivity.
Qed.

(** ** Examples *)



Lemma read_stable_under_write_witness :
  read_footprint btf_a Atask_struct_pid task_addr ## footprint (mm_addr +ₐ 304) 8 /\
  run_accessor Atask_struct_pid (kernel_write kernel_a (mm_addr +ₐ 304) (encode CULong 0x7ffee0002000)) task_addr
  = run_accessor Atask_struct_pid kernel_a task_addr.
Proof.
  assert (Hd : read_footprint btf_a Atask_struct_pid task_addr ## footprint (mm_addr +ₐ 304) 8)
    by (apply (bool_decide_unpack _); vm_compute; reflexivity).
  split; [exact Hd |]. apply read_stable_under_write. exact Hd.
Defined.

Lemma snapshot_consistency_witness :
  (forall a bs, KWrite a bs ∈ pid_tgid_run -> write_misses btf_a pid_tgid_run a bs) /\
  m_log (run_events (mk_mon kernel_a []) pid_tgid_run) = [1234; 1234].
Proof.
  assert (Hw : forall a bs, KWrite a bs ∈ pid_tgid_run -> write_misses btf_a pid_tgid_run a bs).
  { intros a bs Hin acc p Hr. unfold pid_tgid_run, write_arg_start in *.
    repeat (apply elem_of_cons in Hin as [Hin | Hin]; [try discriminate |]);
      [| apply elem_of_nil in Hin; contradiction].
    injection Hin as -> ->.
    repeat (apply elem_of_cons in Hr as [Hr | Hr]; [try discriminate |]);
      [injection Hr as -> -> .. | apply elem_of_nil in Hr; contradiction];
      apply (bool_decide_unpack _); vm_compute; reflexivity. }
  split; [exact Hw |].
  rewrite (snapshot_consistency (mk_mon kernel_a []) pid_tgid_run Hw). vm_compute. reflexivity.
Defined.


Example torn_pid_tgid :
  m_log (run_events (mk_mon kernel_a []) [MRead Atask_struct_pid task_addr; reuse_pid;
                                          KWrite (task_addr +ₐ 1260) (encode CInt 4321);
                                          MRead Atask_struct_tgid task_addr]) = [1234; 4321] /\
  snapshot_reads kernel_a [MRead Atask_struct_pid task_addr; MRead Atask_struct_tgid task_addr] = [1234; 1234].
Proof. split; vm_compute; reflexivity. Qed.
