(* ===== verification/Traversal.v ===== *)
(** * A caller-driven walk over a task's children

    Spec sections 3 and 9: the accessors expose only "next link from
    here" ([task_struct_children_next], [task_struct_sibling_next]); the
    walk over the circular, intrusive [children]/[sibling] lists, and
    detecting its head, is the caller's job, and BPF allows it only as a
    bounded loop.  This file is that caller, written as a BPF program
    writes it: start at [task->children.next], stop at the head
    [&task->children] (or at a null link, which is what a failed read
    returns), map each link to its task with [list_entry(pos, struct
    task_struct, sibling)] (member offsets from the running kernel's BTF,
    as [bpf_core_field_offset] gives them), and give up after [fuel]
    iterations.

    Theorems: the walk never runs more than [fuel] iterations; a result
    found with some fuel is found with more; and on a kernel that holds a
    well-formed ring of children, enough fuel (one more than the number
    of children) returns exactly the children, in list order. *)

From S2P Require Import Prelude CTypes Memory Btf CoreRead Kernels Accessors Objects.

(** [bpf_core_field_offset(struct s, f)] on the running kernel. *)
Definition member_offset (B : btf) (s f : string) : option Z :=
  '(o, _) ← resolve B (BStruct s) [f]; Some o.

(** [list_entry(pos, struct task_struct, sibling)]: the task whose
    [sibling] member is at [pos]. *)
Definition sibling_entry (soff pos : Z) : Z := wrap 64 (pos - soff).

(** The loop: [None] when the fuel runs out before the head is reached. *)
Fixpoint walk_siblings (st : kstate) (head soff pos : Z) (fuel : nat) : option (list Z) :=
  match fuel with
  | O => None
  | S fuel' =>
      if (pos =? head) || (pos =? 0) then Some []
      else
        let child := sibling_entry soff pos in
        rest ← walk_siblings st head soff (task_struct_sibling_next st child) fuel';
        Some (child :: rest)
  end.

(** The children of [task], at most [fuel - 1] of them. *)
Definition task_children (st : kstate) (task : Z) (fuel : nat) : option (list Z) :=
  coff ← member_offset (ks_btf st) "task_struct" "children";
  soff ← member_offset (ks_btf st) "task_struct" "sibling";
  walk_siblings st (task +ₐ coff) soff (task_struct_children_next st task) fuel.

(** ** Well-formed rings of children, on a view *)

(** The link that follows a child in the ring: the next child's
    [sibling] member, or the head after the last one. *)
Definition next_link (head soff : Z) (cs : list Z) : Z :=
  match cs with [] => head | c :: _ => c +ₐ soff end.

Fixpoint sibling_chain (V : view) (head soff : Z) (cs : list Z) : Prop :=
  match cs with
  | [] => True
  | c :: cs' =>
      (exists t, V !! c = Some (OTask t) /\ t_sibling_next t = next_link head soff cs') /\
      sibling_chain V head soff cs'
  end.

(** The children of the task at [p] in [V] are [cs]: its
    [children.next] starts the chain, whose last link is back at the
    head [&p->children]. *)
Definition children_ring (V : view) (p coff soff : Z) (cs : list Z) : Prop :=
  (exists t, V !! p = Some (OTask t) /\ t_children_next t = next_link (p +ₐ coff) soff cs) /\
  sibling_chain V (p +ₐ coff) soff cs.

(** Each child is a non-null 64-bit address whose link is neither the
    head nor null. *)
Definition links_ok (head soff : Z) (cs : list Z) : Prop :=
  Forall (fun c => 0 < c < 2 ^ 64 /\ c +ₐ soff <> head /\ c +ₐ soff <> 0) cs.

(** ** Examples *)

Definition child1_addr : Z := 0xffff888004a40000.
Definition child2_addr : Z := 0xffff888004a48000.

Definition parent_task : task_v := {|
  t_pid := 100; t_tgid := 100; t_exit_code := 0; t_mm := 0; t_parent := 0;
  t_children_next := child1_addr + 1304; t_sibling_next := 0;
  t_group_leader := task_addr; t_signal := 0 |}.

Definition child_task (pid next : Z) : task_v := {|
  t_pid := pid; t_tgid := pid; t_exit_code := 0; t_mm := 0; t_parent := task_addr;
  t_children_next := 0; t_sibling_next := next;
  t_group_leader := 0; t_signal := 0 |}.

(** A parent with two children, on the layout [btf_a] (children at 1288,
    sibling at 1304). *)
Definition family_view : view :=
  <[task_addr := OTask parent_task]>
    (<[child1_addr := OTask (child_task 101 (child2_addr + 1304))]>
      (<[child2_addr := OTask (child_task 102 (task_addr + 1288))]> ∅)).

Definition family_kernel : kstate := build_kstate btf_a family_view.

(** The same family with the second child's memory gone (the task was
    freed while the ring was walked). *)
Definition torn_family_view : view := delete child2_addr family_view.

Definition torn_family_kernel : kstate := build_kstate btf_a torn_family_view.

Example family_children : task_children family_kernel task_addr 3 = Some [child1_addr; child2_addr].
Proof. vm_compute. reflexivity. Qed.

Example family_children_short_fuel : task_children family_kernel task_addr 2 = None.
Proof. vm_compute. reflexivity. Qed.

(** ** Lemmas *)

Lemma sibling_entry_link soff c : 0 <= c < 2 ^ 64 -> sibling_entry soff (c +ₐ soff) = c.
Proof.
  intros Hc. unfold sibling_entry, addr_add, wrap.
  rewrite Zminus_mod_idemp_l. replace (c + soff - soff) with c by lia.
  apply Z.mod_small, Hc.
Qed.

(** One iteration on a link that is neither the head nor null. *)
Lemma walk_siblings_link st head soff pos fuel :
  pos <> head -> pos <> 0 ->
  walk_siblings st head soff pos (S fuel) =
  (fun rest => sibling_entry soff pos :: rest) <$>
    walk_siblings st head soff (task_struct_sibling_next st (sibling_entry soff pos)) fuel.
Proof.
  intros Hh H0. simpl. rewrite (proj2 (Z.eqb_neq _ _) Hh), (proj2 (Z.eqb_neq _ _) H0).
  simpl. destruct (walk_siblings _ _ _ _ _); reflexivity.
Qed.

Lemma walk_siblings_head st head soff fuel :
  walk_siblings st head soff head (S fuel) = Some [].
Proof. simpl. rewrite Z.eqb_refl. reflexivity. Qed.

Lemma walk_siblings_length st head soff pos fuel cs :
  walk_siblings st head soff pos fuel = Some cs -> (length cs < fuel)%nat.
Proof.
  revert pos cs. induction fuel as [|fuel IH]; intros pos cs H; simpl in H; [discriminate |].
  destruct (_ || _); [injection H as <-; simpl; lia |].
  apply bind_Some in H as (rest & Hr & Hcs). simplify_eq/=. apply IH in Hr. lia.
Qed.

Lemma walk_siblings_mono st head soff pos n m cs :
  (n <= m)%nat -> walk_siblings st head soff pos n = Some cs ->
  walk_siblings st head soff pos m = Some cs.
Proof.
  revert pos m cs. induction n as [|n IH]; intros pos m cs Hle H; [discriminate |].
  destruct m as [|m]; [lia |]. simpl in *. destruct (_ || _); [exact H |].
  apply bind_Some in H as (rest & Hr & Hcs).
  rewrite (IH _ m rest); [exact Hcs | lia | exact Hr].
Qed.

Lemma task_children_walk st p fuel cs :
  task_children st p fuel = Some cs ->
  exists coff soff, walk_siblings st (p +ₐ coff) soff (task_struct_children_next st p) fuel = Some cs.
Proof.
  unfold task_children. intros (coff & _ & H)%bind_Some.
  apply bind_Some in H as (soff & _ & H). eauto.
Qed.

(** A failed read of a sibling link gives 0, which ends the walk. *)
Lemma sibling_next_miss st c :
  c <> 0 -> core_field_value st c (accessor_field Atask_struct_sibling_next) = None ->
  task_struct_sibling_next st c = 0.
Proof.
  intros Hc Hm. change (task_struct_sibling_next st c)
    with (run_accessor Atask_struct_sibling_next st c).
  rewrite accessor_nonnull by exact Hc. apply core_read_miss, Hm.
Qed.

Lemma walk_siblings_null st head soff fuel :
  walk_siblings st head soff 0 (S fuel) = Some [].
Proof. simpl. rewrite orb_true_r. reflexivity. Qed.

Lemma links_ok_app head soff cs1 cs2 :
  links_ok head soff (cs1 ++ cs2) <-> links_ok head soff cs1 /\ links_ok head soff cs2.
Proof. apply Forall_app. Qed.

Section Ring.
Context (st : kstate) (V : view) (HR : represents st V).

(** The sibling link read from a represented task is the view's. *)
Lemma sibling_next_read c t :
  c <> 0 -> V !! c = Some (OTask t) -> task_struct_sibling_next st c = t_sibling_next t.
Proof.
  intros Hc Ht. change (task_struct_sibling_next st c)
    with (run_accessor Atask_struct_sibling_next st c).
  apply (represented_read st V); [exact HR | exact Hc | rewrite Ht; reflexivity].
Qed.

Lemma children_next_read p t :
  p <> 0 -> V !! p = Some (OTask t) -> task_struct_children_next st p = t_children_next t.
Proof.
  intros Hp Ht. change (task_struct_children_next st p)
    with (run_accessor Atask_struct_children_next st p).
  apply (represented_read st V); [exact HR | exact Hp | rewrite Ht; reflexivity].
Qed.

(** Walking a chain of [cs] whose last link is [last] visits [cs] and
    goes on from [last], in [length cs] iterations. *)
Lemma walk_path head soff last cs fuel :
  sibling_chain V last soff cs -> links_ok head soff cs ->
  walk_siblings st head soff (next_link last soff cs) (length cs + fuel) =
  (fun rest => cs ++ rest) <$> walk_siblings st head soff last fuel.
Proof.
  revert fuel. induction cs as [|c cs IH]; intros fuel Hch Hok.
  - simpl. destruct (walk_siblings _ _ _ _ _); reflexivity.
  - change (length (c :: cs) + fuel)%nat with (S (length cs + fuel)).
    cbn [next_link sibling_chain] in *. destruct Hch as [(t & Ht & Hn) Hch]. inversion Hok as [|? ? (Hc & Hh & H0) Hok']; subst.
    rewrite walk_siblings_link by assumption. rewrite sibling_entry_link by lia.
    rewrite (sibling_next_read c t), Hn, IH by (lia || assumption).
    destruct (walk_siblings _ _ _ _ _); reflexivity.
Qed.

End Ring.

(** ** The walk *)

(** C9.  Liveness of the walk: on a kernel that represents a view in
    which the task at [p] has the well-formed ring of children [cs], the
    walk with more iterations than there are children terminates with
    exactly [cs], in ring order. *)
Theorem task_children_complete st V p coff soff cs fuel :
  represents st V -> p <> 0 ->
  member_offset (ks_btf st) "task_struct" "children" = Some coff ->
  member_offset (ks_btf st) "task_struct" "sibling" = Some soff ->
  children_ring V p coff soff cs -> links_ok (p +ₐ coff) soff cs ->
  (length cs < fuel)%nat ->
  task_children st p fuel = Some cs.
Proof.
  intros HR Hp Hc Hs [(t & Ht & Hn) Hch] Hok Hf. unfold task_children.
  rewrite Hc, Hs. simpl. rewrite (children_next_read st V HR p t Hp Ht), Hn.
  replace fuel with (length cs + S (fuel - S (length cs)))%nat by lia.
  rewrite (walk_path st V HR), walk_siblings_head by assumption.
  simpl. rewrite app_nil_r. reflexivity.
Qed.

(** The walk is bounded: whatever the kernel's memory, a result
    found with [fuel] iterations has fewer than [fuel] children, and more
    fuel finds the same result. *)
Theorem task_children_fuel st p n cs :
  task_children st p n = Some cs ->
  (length cs < n)%nat /\ forall m, (n <= m)%nat -> task_children st p m = Some cs.
Proof.
  intros H. pose proof H as (coff & soff & Hw)%task_children_walk.
  split; [eapply walk_siblings_length, Hw |].
  intros m Hm. unfold task_children in *.
  destruct (member_offset _ _ "children"), (member_offset _ _ "sibling"); simpl in *;
    try discriminate.
  eapply walk_siblings_mono; eassumption.
Qed.

(** C10.  A fault in the middle of the ring truncates the walk silently:
    when the chain of children [cs1] ends at a link to [c] whose sibling
    link cannot be read, the walk returns [cs1 ++ [c]] as if the list
    ended there, since the failed read gives 0, a null link. *)
Theorem task_children_truncated st V p t coff soff cs1 c fuel :
  represents st V -> p <> 0 ->
  member_offset (ks_btf st) "task_struct" "children" = Some coff ->
  member_offset (ks_btf st) "task_struct" "sibling" = Some soff ->
  V !! p = Some (OTask t) -> t_children_next t = next_link (c +ₐ soff) soff cs1 ->
  sibling_chain V (c +ₐ soff) soff cs1 -> links_ok (p +ₐ coff) soff (cs1 ++ [c]) ->
  core_field_value st c (accessor_field Atask_struct_sibling_next) = None ->
  (length cs1 + 2 <= fuel)%nat ->
  task_children st p fuel = Some (cs1 ++ [c]).
Proof.
  intros HR Hp Hc Hs Ht Hn Hch Hok Hm Hf. unfold task_children.
  rewrite Hc, Hs. simpl. rewrite (children_next_read st V HR p t Hp Ht), Hn.
  apply links_ok_app in Hok as [Hok1 Hok2]. inversion Hok2 as [|? ? (Hc0 & Hh & H0)]; subst.
  replace fuel with (length cs1 + S (S (fuel - S (S (length cs1)))))%nat by lia.
  rewrite (walk_path st V HR), walk_siblings_link, sibling_entry_link by (lia || assumption).
  rewrite sibling_next_miss, walk_siblings_null by (lia || assumption). reflexivity.
Qed.

(** ** Witnesses *)

Lemma task_children_complete_witness :
  task_children family_kernel task_addr 3 = Some [child1_addr; child2_addr].
Proof.
  apply (task_children_complete family_kernel family_view task_addr 1288 1304).
  - apply represents_b_sound. vm_compute. reflexivity.
  - vm_compute. discriminate.
  - vm_compute. reflexivity.
  - vm_compute. reflexivity.
  - split; [eexists; split; vm_compute; reflexivity |].
    split; [eexists; split; vm_compute; reflexivity |].
    split; [eexists; split; vm_compute; reflexivity | exact I].
  - unfold links_ok. repeat constructor; vm_compute; discriminate.
  - simpl. lia.
Defined.

Lemma task_children_truncated_witness :
  task_children torn_family_kernel task_addr 4 = Some [child1_addr; child2_addr].
Proof.
  apply (task_children_truncated torn_family_kernel torn_family_view task_addr parent_task
           1288 1304 [child1_addr] child2_addr).
  - apply represents_b_sound. vm_compute. reflexivity.
  - vm_compute. discriminate.
  - vm_compute. reflexivity.
  - vm_compute. reflexivity.
  - vm_compute. reflexivity.
  - vm_compute. reflexivity.
  - split; [eexists; split; vm_compute; reflexivity | exact I].
  - unfold links_ok. repeat constructor; vm_compute; discriminate.
  - vm_compute. reflexivity.
  - simpl. lia.
Defined.
