(* ===== verification/Interface.v ===== *)
(** * The translation unit's interface: header against definitions

    [vmlinux_access.h] declares the prototypes the other BPF programs of
    the monitor call; [vmlinux_access.c] defines the functions.  A call
    through the header is linked by name to a definition (for BPF, when
    the object files are linked or the program is loaded; an unresolved
    extern fails there).  This file models the header as its list of
    prototypes (name, return type, the struct the parameter points to),
    the definitions as the accessors with their names, and linking as a
    lookup by name.

    Theorems: every declaration that names a definition agrees with it on
    the return type and the parameter; and the header's declarations and
    the file's definitions differ in exactly one name: the header declares
    [linux_bimprm_file] (line 26), which nothing defines, and the
    definition [linux_binprm_file] has no declaration. *)

From S2P Require Import Prelude CTypes Btf CoreRead Accessors.

(** ** Prototypes *)

Record prototype := proto {
  pr_name : string;
  pr_ret : ctype;
  pr_param : string
}.

#[export] Instance prototype_eq_dec : EqDecision prototype.
Proof. solve_decision. Defined.

(** The declarations of [vmlinux_access.h], in order ([const char *],
    [struct ... *] and [list_head *] are all pointers). *)
Definition header_prototypes : list prototype :=
  [proto "cgroup_kn" CPtr "cgroup";
   proto "file_f_path_mnt" CPtr "file";
   proto "file_f_path_dentry" CPtr "file";
   proto "kernfs_node_id" CU64 "kernfs_node";
   proto "linux_bimprm_file" CPtr "linux_binprm";
   proto "linux_binprm_argc" CInt "linux_binprm";
   proto "linux_binprm_filename" CPtr "linux_binprm";
   proto "signal_struct_live_counter" CInt "signal_struct";
   proto "mm_struct_arg_start" CULong "mm_struct";
   proto "mm_struct_arg_end" CULong "mm_struct";
   proto "task_struct_mm" CPtr "task_struct";
   proto "task_struct_exit_code" CInt "task_struct";
   proto "task_struct_pid" CInt "task_struct";
   proto "task_struct_tgid" CInt "task_struct";
   proto "task_struct_parent" CPtr "task_struct";
   proto "task_struct_children_next" CPtr "task_struct";
   proto "task_struct_sibling_next" CPtr "task_struct";
   proto "task_struct_group_leader" CPtr "task_struct";
   proto "task_struct_signal" CPtr "task_struct"].

(** The name each function of [vmlinux_access.c] is defined with. *)
Definition accessor_name (acc : accessor) : string :=
  match acc with
  | Acgroup_kn => "cgroup_kn"
  | Afile_f_path_mnt => "file_f_path_mnt"
  | Afile_f_path_dentry => "file_f_path_dentry"
  | Akernfs_node_id => "kernfs_node_id"
  | Alinux_binprm_file => "linux_binprm_file"
  | Alinux_binprm_argc => "linux_binprm_argc"
  | Alinux_binprm_filename => "linux_binprm_filename"
  | Asignal_struct_live_counter => "signal_struct_live_counter"
  | Amm_struct_arg_start => "mm_struct_arg_start"
  | Amm_struct_arg_end => "mm_struct_arg_end"
  | Atask_struct_mm => "task_struct_mm"
  | Atask_struct_exit_code => "task_struct_exit_code"
  | Atask_struct_pid => "task_struct_pid"
  | Atask_struct_tgid => "task_struct_tgid"
  | Atask_struct_parent => "task_struct_parent"
  | Atask_struct_children_next => "task_struct_children_next"
  | Atask_struct_sibling_next => "task_struct_sibling_next"
  | Atask_struct_group_leader => "task_struct_group_leader"
  | Atask_struct_signal => "task_struct_signal"
  end.

(** The prototype of a definition: it returns the type of the field it
    reads, and its parameter points to the struct the field path starts
    from. *)
Definition def_prototype (acc : accessor) : prototype :=
  proto (accessor_name acc) (result_type acc) (fa_struct (accessor_field acc)).

(** Linking a call by name: the definition of that name, if any. *)
Definition link (name : string) : option accessor :=
  snd <$> list_find (fun acc => accessor_name acc = name) all_accessors.

(** ** Theorems *)

(** Linking a call by the name a function is defined with finds
    that function: the nineteen names are distinct. *)
Theorem link_accessor_name acc : link (accessor_name acc) = Some acc.
Proof. destruct acc; vm_compute; reflexivity. Qed.

(** Every declaration of the header that links to a definition
    agrees with it: same return type, same parameter struct. *)
Theorem header_matches_definitions pr acc :
  pr ∈ header_prototypes -> link (pr_name pr) = Some acc -> pr = def_prototype acc.
Proof.
  intros Hpr Hl.
  assert (Hb : forallb (fun pr => match link (pr_name pr) with
                                 | Some acc => bool_decide (pr = def_prototype acc)
                                 | None => true end) header_prototypes = true)
    by (vm_compute; reflexivity).
  rewrite forallb_forall in Hb. specialize (Hb pr (proj1 (list_elem_of_In _ _) Hpr)).
  rewrite Hl in Hb. apply bool_decide_eq_true in Hb. exact Hb.
Qed.

(** The header and the definitions differ in one function: the
    only declaration that links to nothing is [linux_bimprm_file], and
    the only definition no declaration names is [linux_binprm_file]. *)
Theorem header_unresolved :
  filter (fun pr => link (pr_name pr) = None) header_prototypes =
    [proto "linux_bimprm_file" CPtr "linux_binprm"] /\
  filter (fun acc => def_prototype acc ∉ header_prototypes) all_accessors =
    [Alinux_binprm_file].
Proof. split; vm_compute; reflexivity. Qed.

