(* ===== verification/WalkRace.v ===== *)
(** * The children walk racing the kernel

    Spec section 5: the kernel mutates the structures while the monitor
    reads them, and a caller building a process tree must tolerate it.
    The walk of [Traversal] reads one sibling link per iteration, and
    between two iterations the kernel may run.  The kernel operation that
    matters for the children ring is the one a task's exit makes:
    [release_task] -> [__unhash_process] -> [list_del_init(&p->sibling)]
    (include/linux/list.h), which unlinks the entry and points it at
    itself.

    This file models the walker as a state machine, one iteration per
    step ([walk_iter]; [run_walker] iterates it), and the race as a step
    relation [race_step] with one rule for the walker and one for each
    kernel operation ([kernel_op]: a write, or [list_del_init]).

    Theorems: the stepwise walker run alone computes [walk_siblings];
    under any interleaving with kernel operations the walker makes at
    most [fuel + 1] iterations; after [list_del_init] the removed task's
    sibling link points to itself; and a walker that stands on such an
    entry never reaches the head: the bounded walk always runs out of
    fuel, and the unbounded [while (pos != head)] loop runs forever. *)

From S2P Require Import Prelude CTypes Memory Btf CoreRead Kernels Accessors Objects Traversal.

(** ** The kernel's [list_del_init] *)

Definition list_head_next : field_access := field "list_head" ["next"] CPtr.
Definition list_head_prev : field_access := field "list_head" ["prev"] CPtr.

(** [__list_del_entry(entry); INIT_LIST_HEAD(entry);], each assignment a
    store to the kernel's memory, in the order of include/linux/list.h. *)
Definition list_del_init (st : kstate) (entry : Z) : kstate :=
  let prev := core_read st entry list_head_prev in
  let next := core_read st entry list_head_next in
  let st1 := store_field st next list_head_prev prev in
  let st2 := store_field st1 prev list_head_next next in
  let st3 := store_field st2 entry list_head_next entry in
  store_field st3 entry list_head_prev entry.

(** What the kernel may do between two iterations of the walk. *)
Inductive kernel_op : kstate -> kstate -> Prop :=
  | kop_write st a bs : kernel_op st (mk_kstate (ks_btf st) (store_bytes (ks_mem st) a bs))
  | kop_list_del_init st e : kernel_op st (list_del_init st e).

(** ** The walker, one iteration at a time *)

Record walker := mk_walker { w_pos : Z; w_seen : list Z; w_fuel : nat }.

Inductive wstate :=
  | Walking (w : walker)
  | Finished (cs : list Z)
  | Exhausted.

(** One iteration of the loop of [walk_siblings], on the kernel as it is
    when the iteration runs. *)
Definition walk_iter (st : kstate) (head soff : Z) (w : walker) : wstate :=
  match w_fuel w with
  | O => Exhausted
  | S f =>
      if (w_pos w =? head) || (w_pos w =? 0) then Finished (w_seen w)
      else
        let child := sibling_entry soff (w_pos w) in
        Walking (mk_walker (task_struct_sibling_next st child) (w_seen w ++ [child]) f)
  end.

Fixpoint run_walker (st : kstate) (head soff : Z) (n : nat) (s : wstate) : wstate :=
  match n, s with
  | S n', Walking w => run_walker st head soff n' (walk_iter st head soff w)
  | _, _ => s
  end.

(** Iterations left, counting the last one that stops. *)
Definition wmeasure (s : wstate) : nat :=
  match s with Walking w => S (w_fuel w) | _ => O end.

(** ** The race *)

Record race := mk_race { r_st : kstate; r_walk : wstate; r_iters : nat }.

Inductive race_step (head soff : Z) : race -> race -> Prop :=
  | race_kernel st st' s n :
      kernel_op st st' -> race_step head soff (mk_race st s n) (mk_race st' s n)
  | race_walker st w n :
      race_step head soff (mk_race st (Walking w) n) (mk_race st (walk_iter st head soff w) (S n)).

(** The loop without a bound: [while (pos != head && pos)]. *)
Inductive loop_step (st : kstate) (head soff : Z) : Z -> Z -> Prop :=
  | loop_next pos :
      pos <> head -> pos <> 0 ->
      loop_step st head soff pos (task_struct_sibling_next st (sibling_entry soff pos)).

(** An infinite run of [R] from [a] (cdf-mech-sem's [Sequences.infseq]). *)
Definition infseq {A} (R : A -> A -> Prop) (a : A) : Prop :=
  exists X : A -> Prop, X a /\ forall a1, X a1 -> exists a2, R a1 a2 /\ X a2.

(** ** Examples *)

Definition children_link : Z := task_addr +ₐ 1288.
Definition child1_link : Z := child1_addr +ₐ 1304.
Definition child2_link : Z := child2_addr +ₐ 1304.

(** [family_kernel] with the [prev] pointers of the ring written too. *)
Definition family_ring : kstate :=
  store_field (store_field (store_field family_kernel
    children_link list_head_prev child2_link)
    child1_link list_head_prev children_link)
    child2_link list_head_prev child1_link.

(** The first child exits. *)
Definition family_after_exit : kstate := list_del_init family_ring child1_link.

Example family_ring_children : task_children family_ring task_addr 3 = Some [child1_addr; child2_addr].
Proof. vm_compute. reflexivity. Qed.

Example exit_unlinks_child1 : task_children family_after_exit task_addr 3 = Some [child2_addr].
Proof. vm_compute. reflexivity. Qed.

(** The walker read the link to the first child, then the child exited:
    the walk never gets back to the head. *)
Example walker_trapped :
  run_walker family_after_exit children_link 1304 20
    (Walking (mk_walker child1_link [] 10)) = Exhausted.
Proof. vm_compute. reflexivity. Qed.

(** ** Lemmas *)

Lemma core_read_range st src fa : in_range (fa_type fa) (core_read st src fa).
Proof.
  destruct (core_field_value st src fa) as [v|] eqn:E.
  - rewrite (core_read_hit _ _ _ _ E). eapply core_field_value_range, E.
  - rewrite (core_read_miss _ _ _ E). apply zero_in_range.
Qed.

Lemma ptr_in_range a : in_range CPtr a <-> 0 <= a < 2 ^ 64.
Proof. unfold in_range. ctype_compute. reflexivity. Qed.

Lemma list_del_init_btf st e : ks_btf (list_del_init st e) = ks_btf st.
Proof. unfold list_del_init. rewrite !store_field_btf. reflexivity. Qed.

(** The two halves of a [list_head] do not overlap. *)
Lemma list_head_halves_disjoint e :
  0 <= e < 2 ^ 64 -> footprint (e +ₐ 0) (sizeof CPtr) ## footprint (e +ₐ 8) (sizeof CPtr).
Proof.
  intros He. rewrite addr_add_0 by exact He.
  apply (footprint_disjoint_adjacent e 8 8). lia.
Qed.

Section ListHead.
Context (st : kstate)
  (Hnext : field_reloc (ks_btf st) list_head_next = Some 0)
  (Hprev : field_reloc (ks_btf st) list_head_prev = Some 8).

(** [INIT_LIST_HEAD(entry)]: after [list_del_init], both links of the
    entry point to the entry. *)
Lemma list_del_init_entry e :
  0 <= e < 2 ^ 64 ->
  core_field_value (list_del_init st e) e list_head_next = Some e /\
  core_field_value (list_del_init st e) e list_head_prev = Some e.
Proof.
  intros He. unfold list_del_init.
  split; [rewrite (core_field_value_store_other _ _ _ 0 _ _ 8) |];
    rewrite ?store_field_btf; try assumption;
    try (apply core_field_value_store; rewrite ?store_field_btf;
         [eexists; eassumption | apply ptr_in_range, He]).
  apply list_head_halves_disjoint, He.
Qed.

(** The sibling link of the removed task, read through the accessor,
    points to the task's own [sibling] member. *)
Lemma list_del_init_sibling_self c soff :
  field_reloc (ks_btf st) (accessor_field Atask_struct_sibling_next) = Some soff -> c <> 0 ->
  task_struct_sibling_next (list_del_init st (c +ₐ soff)) c = c +ₐ soff.
Proof.
  intros Hs Hc. change (task_struct_sibling_next ?s c) with (run_accessor Atask_struct_sibling_next s c).
  rewrite accessor_nonnull by exact Hc. apply core_read_hit.
  rewrite (core_field_value_alias _ _ _ soff (c +ₐ soff) list_head_next 0);
    rewrite ?list_del_init_btf; try assumption; try reflexivity.
  - apply list_del_init_entry, addr_add_range.
  - rewrite addr_add_0; [reflexivity | apply addr_add_range].
Qed.

(** [__list_del_entry]: the predecessor's [next] is the entry's old
    [next], when the predecessor does not overlap the entry. *)
Lemma list_del_init_prev e :
  0 <= e < 2 ^ 64 ->
  footprint (core_read st e list_head_prev) (sizeof CPtr) ## footprint e 16 ->
  core_field_value (list_del_init st e) (core_read st e list_head_prev) list_head_next =
    Some (core_read st e list_head_next).
Proof.
  intros He Hd. pose proof (core_read_range st e list_head_prev) as Hp.
  pose proof (core_read_range st e list_head_next) as Hn. apply ptr_in_range in Hp.
  unfold list_del_init.
  rewrite (core_field_value_store_other _ _ _ 0 _ _ 8), (core_field_value_store_other _ _ _ 0 _ _ 0);
    rewrite ?store_field_btf; try assumption.
  - apply core_field_value_store; rewrite ?store_field_btf; [eexists; eassumption |].
    exact Hn.
  - rewrite (addr_add_0 (core_read _ _ _)) by exact Hp. intros k Hk1 Hk2. apply (Hd k Hk1).
    apply (footprint_sub e 0 8 16); [lia | exact Hk2].
  - rewrite (addr_add_0 (core_read _ _ _)) by exact Hp. intros k Hk1 Hk2. apply (Hd k Hk1).
    apply (footprint_sub e 8 8 16); [lia | exact Hk2].
Qed.

End ListHead.

(** Each iteration uses up at least one unit of the measure. *)
Lemma walk_iter_measure st head soff w :
  (wmeasure (walk_iter st head soff w) < wmeasure (Walking w))%nat.
Proof.
  unfold walk_iter. destruct (w_fuel w) as [|f] eqn:Hf; simpl; rewrite ?Hf; [lia |].
  destruct (_ || _); simpl; lia.
Qed.

Lemma race_step_measure head soff r r' :
  race_step head soff r r' ->
  (r_iters r' + wmeasure (r_walk r') <= r_iters r + wmeasure (r_walk r))%nat.
Proof.
  intros [st st' s n _ | st w n]; cbn [r_iters r_walk]; [lia |].
  pose proof (walk_iter_measure st head soff w). lia.
Qed.

(** The walk from an entry whose sibling link points to itself never
    reaches the head. *)
Lemma self_loop_walk st head soff c :
  task_struct_sibling_next st c = c +ₐ soff -> 0 <= c < 2 ^ 64 ->
  c +ₐ soff <> head -> c +ₐ soff <> 0 ->
  forall fuel, walk_siblings st head soff (c +ₐ soff) fuel = None.
Proof.
  intros Hl Hc Hh H0 fuel. induction fuel as [|f IH]; [reflexivity |].
  rewrite walk_siblings_link, sibling_entry_link, Hl, IH by assumption. reflexivity.
Qed.

Lemma self_loop_infseq st head soff c :
  task_struct_sibling_next st c = c +ₐ soff -> 0 <= c < 2 ^ 64 ->
  c +ₐ soff <> head -> c +ₐ soff <> 0 ->
  infseq (loop_step st head soff) (c +ₐ soff).
Proof.
  intros Hl Hc Hh H0. exists (fun pos => pos = c +ₐ soff). split; [reflexivity |].
  intros a1 ->. exists (c +ₐ soff). split; [| reflexivity].
  rewrite <- Hl at 2. rewrite <- (sibling_entry_link soff c Hc) at 2.
  constructor; assumption.
Qed.

(** A walker step to a state given by its value. *)
Lemma race_walker_to head soff st w n s' :
  walk_iter st head soff w = s' ->
  race_step head soff (mk_race st (Walking w) n) (mk_race st s' (S n)).
Proof. intros <-. constructor. Qed.

(** ** The walker *)

(** The walker run one iteration at a time, with no kernel step
    in between, computes [walk_siblings]: after [fuel + 1] iterations it
    has finished with the children [walk_siblings] returns, or run out
    of fuel exactly when [walk_siblings] does. *)
Theorem run_walker_walk st head soff pos seen fuel :
  run_walker st head soff (S fuel) (Walking (mk_walker pos seen fuel)) =
  match walk_siblings st head soff pos fuel with
  | Some cs => Finished (seen ++ cs)
  | None => Exhausted
  end.
Proof.
  revert pos seen. induction fuel as [|f IH]; intros pos seen; [reflexivity |].
  change (run_walker st head soff (S (S f)) ?s)
    with (match s with Walking w => run_walker st head soff (S f) (walk_iter st head soff w) | _ => s end).
  unfold walk_iter. cbn [w_fuel w_pos w_seen walk_siblings].
  destruct (_ || _).
  - rewrite app_nil_r. destruct f; reflexivity.
  - rewrite IH. destruct (walk_siblings _ _ _ _ _); simpl; [rewrite <- app_assoc |]; reflexivity.
Qed.

(** Whatever the kernel does between iterations (writes to any
    memory, [list_del_init] of any entry), the walker started with
    [fuel] makes at most [fuel + 1] iterations: in every reachable
    configuration the iterations made plus those the walker may still
    make are at most [fuel + 1]. *)
Theorem race_iterations_bounded head soff st0 pos fuel r :
  rtc (race_step head soff) (mk_race st0 (Walking (mk_walker pos [] fuel)) 0) r ->
  (r_iters r + wmeasure (r_walk r) <= S fuel)%nat.
Proof.
  change (S fuel) with (r_iters (mk_race st0 (Walking (mk_walker pos [] fuel)) 0) +
                        wmeasure (r_walk (mk_race st0 (Walking (mk_walker pos [] fuel)) 0)))%nat.
  induction 1 as [| r1 r2 r3 Hs _ IH]; [lia |].
  pose proof (race_step_measure head soff r1 r2 Hs). lia.
Qed.

(** ** Exit during a walk *)

(** C11.  [list_del_init(&c->sibling)], as the kernel runs it when the
    task [c] exits, unlinks [c]: the predecessor's [next] becomes the
    entry's old [next], and [c]'s sibling link, read through
    [task_struct_sibling_next], points back to [c]'s own [sibling]
    member. *)
Theorem list_del_init_unlinks st c soff :
  field_reloc (ks_btf st) list_head_next = Some 0 ->
  field_reloc (ks_btf st) list_head_prev = Some 8 ->
  field_reloc (ks_btf st) (accessor_field Atask_struct_sibling_next) = Some soff -> c <> 0 ->
  footprint (core_read st (c +ₐ soff) list_head_prev) (sizeof CPtr) ## footprint (c +ₐ soff) 16 ->
  core_read (list_del_init st (c +ₐ soff)) (core_read st (c +ₐ soff) list_head_prev) list_head_next =
    core_read st (c +ₐ soff) list_head_next /\
  task_struct_sibling_next (list_del_init st (c +ₐ soff)) c = c +ₐ soff.
Proof.
  intros Hn Hp Hs Hc Hd. split.
  - apply core_read_hit, list_del_init_prev; [assumption.. | apply addr_add_range | exact Hd].
  - apply list_del_init_sibling_self; assumption.
Qed.

(** C12.  A walker about to follow the link to a task that exits at
    that moment never gets back to the head: the bounded walk runs out
    of fuel for every fuel, and the unbounded loop [while (pos != head)]
    has an infinite run. *)
Theorem exit_traps_walker st head c soff :
  field_reloc (ks_btf st) list_head_next = Some 0 ->
  field_reloc (ks_btf st) list_head_prev = Some 8 ->
  field_reloc (ks_btf st) (accessor_field Atask_struct_sibling_next) = Some soff ->
  0 < c < 2 ^ 64 -> c +ₐ soff <> head -> c +ₐ soff <> 0 ->
  (forall fuel, walk_siblings (list_del_init st (c +ₐ soff)) head soff (c +ₐ soff) fuel = None) /\
  infseq (loop_step (list_del_init st (c +ₐ soff)) head soff) (c +ₐ soff).
Proof.
  intros Hn Hp Hs Hc Hh H0.
  assert (Hl : task_struct_sibling_next (list_del_init st (c +ₐ soff)) c = c +ₐ soff)
    by (apply list_del_init_sibling_self; [assumption.. | lia]).
  split; [apply self_loop_walk | apply self_loop_infseq]; (assumption || lia).
Qed.

(** ** Witnesses *)

Lemma list_del_init_unlinks_witness :
  core_read family_after_exit (core_read family_ring child1_link list_head_prev) list_head_next =
    core_read family_ring child1_link list_head_next /\
  task_struct_sibling_next family_after_exit child1_addr = child1_link.
Proof.
  apply (list_del_init_unlinks family_ring child1_addr 1304);
    [vm_compute; reflexivity .. | unfold child1_addr; lia |].
  apply (bool_decide_unpack _). vm_compute. reflexivity.
Defined.

Lemma exit_traps_walker_witness :
  walk_siblings family_after_exit children_link 1304 child1_link 100%nat = None.
Proof.
  refine (proj1 (exit_traps_walker family_ring children_link child1_addr 1304 _ _ _ _ _ _) 100%nat);
    [vm_compute; reflexivity | vm_compute; reflexivity | vm_compute; reflexivity
    | unfold child1_addr; lia | vm_compute; discriminate | vm_compute; discriminate].
Defined.
