(* ===== verification/Loader.v ===== *)
(** * Loading: CO-RE relocation at load time

    The rest of the development resolves each field access against the
    running kernel's BTF when the access runs ([core_read]).  libbpf does
    it once, when the program is loaded: [bpf_object__relocate_core]
    resolves every CO-RE relocation record of the object against the
    kernel's BTF and patches the field offset into the instruction; a
    relocation that cannot be resolved poisons its instruction
    ([bpf_core_poison_insn]), and the verifier then rejects the program
    if a poisoned instruction is reachable.  Each accessor's read is
    reachable as soon as the accessor is called: the verifier cannot
    tell that the handle is never null, so it walks both branches of the
    guard.

    [relocate] is the relocation pass (one record per field access of
    the program, patched or poisoned), [verify] the verifier's rejection
    of a reachable poisoned instruction, [load] the two in sequence, in
    the result type [result] (an [Ok]/[Error] sum with stdpp's monad
    instances).  A loaded program runs with the patched offsets:
    [patched_read] is [BPF_CORE_READ] on those, another instance of the
    [FieldReader] interface, so the nineteen functions of [Accessors]
    run on it unchanged.

    Theorems: loading fails exactly when a called function's field does
    not relocate, and the error names such a field; on a loaded program
    every called function computes what it computes with resolution at
    run time (so the run-time model of the other files is the loaded
    program's behaviour); and on a kernel older than 5.5, whose
    [kernfs_node.id] is the union [kernfs_node_id], a program is
    rejected exactly when it calls [kernfs_node_id]. *)

From S2P Require Import Prelude CTypes Memory Btf CoreRead Kernels Accessors.

(** ** Results *)

Inductive result (E A : Type) := Ok (a : A) | Error (e : E).
Arguments Ok {E A} a.
Arguments Error {E A} e.

#[export] Instance result_ret {E} : MRet (result E) := fun _ a => Ok a.
#[export] Instance result_bind {E} : MBind (result E) :=
  fun _ _ f r => match r with Ok a => f a | Error e => Error e end.

#[export] Instance field_access_eq_dec : EqDecision field_access.
Proof. solve_decision. Defined.

(** ** Relocation and verification *)

(** Why the kernel refused the program: the verifier met a reachable
    instruction that libbpf poisoned because its relocation failed. *)
Inductive load_error := PoisonedInsn (fa : field_access).

(** The relocation pass: each access patched with its offset on the
    kernel [B], or poisoned ([None]). *)
Definition relocate (B : btf) (fas : list field_access) : list (field_access * option Z) :=
  map (fun fa => (fa, field_reloc B fa)) fas.

Definition check_insn (r : field_access * option Z) : result load_error (field_access * Z) :=
  match r with
  | (fa, Some off) => Ok (fa, off)
  | (fa, None) => Error (PoisonedInsn fa)
  end.

(** The verifier: the first reachable poisoned instruction rejects the
    program; otherwise the patched offsets are the program. *)
Definition verify (rs : list (field_access * option Z)) : result load_error (list (field_access * Z)) :=
  mapM check_insn rs.

(** Loading a program that calls the functions [prog]. *)
Definition load (B : btf) (prog : list accessor) : result load_error (list (field_access * Z)) :=
  verify (relocate B (map accessor_field prog)).

(** ** The loaded program *)

Record loaded := mk_loaded { ld_relocs : list (field_access * Z); ld_mem : kmem }.

Definition patched_offset (tbl : list (field_access * Z)) (fa : field_access) : option Z :=
  (fun ir => ir.2.2) <$> list_find (fun r => r.1 = fa) tbl.

(** [BPF_CORE_READ] with the offset patched in at load time. *)
Definition patched_read (ld : loaded) (src : Z) (fa : field_access) : Z :=
  match patched_offset (ld_relocs ld) fa with
  | Some off => decode (fa_type fa) (bpf_probe_read_kernel (ld_mem ld) (sizeof (fa_type fa)) (src +ₐ off)).2
  | None => 0
  end.

#[export] Instance patched_reader : FieldReader loaded := patched_read.

Definition patched_field_value (ld : loaded) (src : Z) (fa : field_access) : option Z :=
  off ← patched_offset (ld_relocs ld) fa;
  bs ← load_bytes (ld_mem ld) (src +ₐ off) (sizeof (fa_type fa));
  Some (decode (fa_type fa) bs).

(** ** A kernel before 5.5 *)

(** Until Linux 5.5 [kernfs_node.id] was [union kernfs_node_id] (an
    [ino]/[generation] pair), not a [u64]. *)
Definition btf_pre55 : btf :=
  <["kernfs_node" := [mk_member "id" 80 (BStruct "kernfs_node_id")]]>
    (<["kernfs_node_id" := [mk_member "ino" 0 (BInt 4 false); mk_member "generation" 4 (BInt 4 false)]]>
      btf_a).

(** The relocation table of a program calling all nineteen functions,
    loaded on [btf_a]. *)
Definition relocs_a : list (field_access * Z) :=
  match load btf_a all_accessors with Ok tbl => tbl | Error _ => [] end.

Example load_btf_a : exists tbl, load btf_a all_accessors = Ok tbl.
Proof. eexists. vm_compute. reflexivity. Qed.

Example load_pre55_rejected :
  load btf_pre55 [Atask_struct_pid; Akernfs_node_id; Acgroup_kn] =
    Error (PoisonedInsn (accessor_field Akernfs_node_id)).
Proof. vm_compute. reflexivity. Qed.

Example loaded_pid_1234 :
  run_accessor Atask_struct_pid (mk_loaded relocs_a (ks_mem st_pid_1234)) task_addr = 1234.
Proof. vm_compute. reflexivity. Qed.

(** ** Lemmas *)

(** A relocation table all of whose offsets are those of the kernel [B]. *)
Definition table_ok (B : btf) (tbl : list (field_access * Z)) : Prop :=
  Forall (fun r => field_reloc B r.1 = Some r.2) tbl.

Lemma load_cons B acc prog :
  load B (acc :: prog) =
    r ← check_insn (accessor_field acc, field_reloc B (accessor_field acc));
    tbl ← load B prog; Ok (r :: tbl).
Proof. reflexivity. Qed.

(** A loaded program: every offset is the kernel's, and every called
    function's field has one. *)
Lemma load_Ok_table B prog tbl :
  load B prog = Ok tbl -> table_ok B tbl /\ tbl.*1 = map accessor_field prog.
Proof.
  revert tbl. induction prog as [|acc prog IH]; intros tbl H.
  - injection H as <-. split; [constructor | reflexivity].
  - rewrite load_cons in H. destruct (field_reloc B _) as [off|] eqn:Ho; simpl in H; [| discriminate].
    destruct (load B prog) as [tbl'|] eqn:Hl; simpl in H; [| discriminate].
    injection H as <-. destruct (IH tbl' eq_refl) as [Hok Hfst].
    split; [constructor; [exact Ho | exact Hok] | cbn; f_equal; exact Hfst].
Qed.

Lemma load_Ok_intro B prog :
  Forall (fun acc => is_Some (field_reloc B (accessor_field acc))) prog ->
  exists tbl, load B prog = Ok tbl.
Proof.
  induction 1 as [|acc prog [off Ho] _ [tbl Hl]]; [eexists; reflexivity |].
  rewrite load_cons, Ho, Hl. eexists. reflexivity.
Qed.

Lemma patched_offset_table B tbl fa :
  table_ok B tbl -> fa ∈ tbl.*1 -> patched_offset tbl fa = field_reloc B fa.
Proof.
  intros Hok Hin. unfold patched_offset.
  destruct (list_find (fun r => r.1 = fa) tbl) as [[i r]|] eqn:E.
  - apply list_find_Some in E as (Hi & <- & _). symmetry.
    exact (Forall_lookup_1 _ _ _ _ Hok Hi).
  - exfalso. apply list_elem_of_fmap in Hin as (r & -> & Hr).
    destruct (list_find_elem_of (fun r' : field_access * Z => r'.1 = r.1) tbl r Hr eq_refl) as [x Hx].
    congruence.
Qed.

Lemma table_ok_reloc B tbl fa : table_ok B tbl -> fa ∈ tbl.*1 -> is_Some (field_reloc B fa).
Proof.
  intros Hok (r & -> & Hr)%list_elem_of_fmap.
  unfold table_ok in Hok. rewrite Forall_forall in Hok. rewrite (Hok r Hr). eexists. reflexivity.
Qed.

(** A program loads exactly when every function it calls has its field
    on the kernel. *)
Lemma load_Ok_iff B prog :
  (exists tbl, load B prog = Ok tbl) <->
  Forall (fun acc => is_Some (field_reloc B (accessor_field acc))) prog.
Proof.
  split; [| apply load_Ok_intro].
  intros [tbl (Hok & Hfst)%load_Ok_table]. apply Forall_forall. intros acc Hacc.
  apply (table_ok_reloc B tbl); [exact Hok |]. rewrite Hfst.
  apply list_elem_of_fmap. eauto.
Qed.

(** ** The laws of the patched reader *)

Lemma patched_read_hit ld src fa v :
  patched_field_value ld src fa = Some v -> patched_read ld src fa = v.
Proof.
  unfold patched_field_value, patched_read. intros (off & Ho & H)%bind_Some.
  apply bind_Some in H as (bs & Hbs & [= <-]). rewrite Ho, (bpf_probe_read_kernel_ok _ _ _ _ Hbs).
  reflexivity.
Qed.

Lemma patched_read_miss ld src fa :
  patched_field_value ld src fa = None -> patched_read ld src fa = 0.
Proof.
  unfold patched_field_value, patched_read. destruct (patched_offset _ _) as [off|]; [| reflexivity].
  simpl. destruct (load_bytes _ _ _) eqn:Hbs; [discriminate |]. intros _.
  rewrite (bpf_probe_read_kernel_fault _ _ _ Hbs). apply decode_zeros.
Qed.

Lemma patched_field_value_range ld src fa v :
  patched_field_value ld src fa = Some v -> in_range (fa_type fa) v.
Proof.
  unfold patched_field_value. intros (off & _ & H)%bind_Some.
  apply bind_Some in H as (bs & Hbs & [= <-]). apply decode_range. eapply length_load_bytes, Hbs.
Qed.

#[export] Instance patched_reader_laws : FieldReaderLaws loaded := {|
  field_value := patched_field_value;
  read_hit := patched_read_hit;
  read_miss := patched_read_miss;
  field_value_range := patched_field_value_range
|}.

(** ** Theorems *)

(** Loading rejects a program exactly when a function it calls
    has a field that does not relocate on the kernel, and the error
    names the field of such a function. *)
Theorem load_rejects B prog :
  (forall e, load B prog = Error e ->
     exists acc, acc ∈ prog /\ e = PoisonedInsn (accessor_field acc) /\
                 field_reloc B (accessor_field acc) = None) /\
  ((exists tbl, load B prog = Ok tbl) <->
   Forall (fun acc => is_Some (field_reloc B (accessor_field acc))) prog).
Proof.
  split; [| apply load_Ok_iff].
  induction prog as [|acc prog IH]; intros e H; [discriminate |].
  rewrite load_cons in H. destruct (field_reloc B _) as [off|] eqn:Ho; simpl in H.
  - destruct (load B prog) as [|e'] eqn:Hl; simpl in H; [discriminate |].
    injection H as <-. destruct (IH e' eq_refl) as (a & Ha & -> & Hr).
    exists a. split; [apply list_elem_of_further, Ha | auto].
  - injection H as <-. exists acc. split; [apply list_elem_of_here | auto].
Qed.

(** On a loaded program, every function it calls computes with
    the offsets patched in at load time what it computes when the field
    is resolved against the kernel's BTF at each call: the run-time
    resolution of [core_read] is the loaded program's behaviour. *)
Theorem loaded_equiv B prog tbl m acc p :
  load B prog = Ok tbl -> acc ∈ prog ->
  run_accessor acc (mk_loaded tbl m) p = run_accessor acc (mk_kstate B m) p.
Proof.
  intros Hl Hacc. destruct (load_Ok_table _ _ _ Hl) as [Hok Hfst].
  rewrite !accessor_template. destruct (p =? 0); [reflexivity |].
  change (patched_read (mk_loaded tbl m) p (accessor_field acc) =
          core_read (mk_kstate B m) p (accessor_field acc)).
  unfold patched_read, core_read. cbn [ld_relocs ld_mem ks_btf ks_mem].
  rewrite (patched_offset_table B); [reflexivity | exact Hok |].
  rewrite Hfst. apply list_elem_of_fmap. eauto.
Qed.

(** On a kernel before 5.5, where [kernfs_node.id] is a union, a
    program loads exactly when it does not call [kernfs_node_id]: the
    failure is not reported as "unavailable" at run time, the whole
    program is refused. *)
Theorem pre55_rejects_kernfs_node_id prog :
  (exists tbl, load btf_pre55 prog = Ok tbl) <-> Akernfs_node_id ∉ prog.
Proof.
  assert (Hacc : forall acc,
    is_Some (field_reloc btf_pre55 (accessor_field acc)) <-> acc <> Akernfs_node_id).
  { intros acc. destruct acc; vm_compute; split; intros H;
      first [ (eexists; reflexivity) | (destruct H; discriminate) | (exfalso; apply H; reflexivity)
            | (intro; discriminate) ]. }
  rewrite load_Ok_iff, Forall_forall. split.
  - intros Hall Hin. apply (Hacc Akernfs_node_id); [apply Hall, Hin | reflexivity].
  - intros Hnin acc Hin. apply Hacc. intros ->. contradiction.
Qed.

(** The facade lemmas hold on the loaded program through its laws: a
    read of a task whose memory is gone gives 0. *)
Example loaded_unmapped_pid :
  run_accessor Atask_struct_pid (mk_loaded relocs_a ∅) task_addr = 0.
Proof. apply accessor_read_fail; [vm_compute; discriminate | vm_compute; reflexivity]. Qed.
